(** * S/SH pronunciation coach: a shallow embedding of the widget
    (src/App.tsx, index.tsx) and of the backend transcription handler,
    with the properties of its interaction contract. *)

From Stdlib Require Import List ZArith NArith Bool String Ascii Lia.
Import ListNotations.

Local Set Warnings "-register-all".

Local Open Scope N_scope.
Local Open Scope list_scope.

(** ** JavaScript strings

    A JavaScript string is a sequence of UTF-16 code units.  The regular
    expression of the program has no [u] flag, so it also works on code
    units. *)

Definition char16 := N.
Definition jsstring := list char16.

(** An ASCII literal as a JavaScript string. *)
Definition js (s : string) : jsstring :=
  map N_of_ascii (list_ascii_of_string s).

Definition quote : jsstring := [34].
Definition newline : jsstring := [10].

Fixpoint str_eqb (a b : jsstring) : bool :=
  match a, b with
  | [], [] => true
  | x :: a', y :: b' => (x =? y) && str_eqb a' b'
  | _, _ => false
  end.

(** [WhiteSpace] and [LineTerminator] of ECMAScript: what [\s] matches and
    what [String.prototype.trim] removes. *)
Definition isWhiteSpace (c : char16) : bool :=
  existsb (N.eqb c)
    [9; 10; 11; 12; 13; 32; 160; 5760; 8232; 8233; 8239; 8287; 12288; 65279]
  || ((8192 <=? c) && (c <=? 8202)).

Fixpoint trimStart (s : jsstring) : jsstring :=
  match s with
  | c :: s' => if isWhiteSpace c then trimStart s' else s
  | [] => []
  end.

Definition trimEnd (s : jsstring) : jsstring := rev (trimStart (rev s)).

Definition trim (s : jsstring) : jsstring := trimEnd (trimStart s).

(** [startsWith s p] strips the prefix [p] from [s] when it is there. *)
Fixpoint stripPrefix (p s : jsstring) : option jsstring :=
  match p, s with
  | [], _ => Some s
  | x :: p', y :: s' => if x =? y then stripPrefix p' s' else None
  | _ :: _, [] => None
  end.

Definition startsWith (s p : jsstring) : bool :=
  match stripPrefix p s with Some _ => true | None => false end.

(** [String.prototype.includes]: [sub] occurs somewhere in [s]. *)
Fixpoint includes (s sub : jsstring) : bool :=
  startsWith s sub ||
  match s with
  | _ :: s' => includes s' sub
  | [] => false
  end.

(** [Array.prototype.join] on an array of strings. *)
Fixpoint join (sep : jsstring) (xs : list jsstring) : jsstring :=
  match xs with
  | [] => []
  | [x] => x
  | x :: xs' => x ++ sep ++ join sep xs'
  end.

(** ** Regular expressions

    The fragment of ECMAScript regular expressions the program uses, with
    the backtracking order of the language: alternatives are tried in
    priority order and the first complete match wins. *)

Inductive regex : Type :=
| Bol                                   (* ^ without the m flag *)
| Eol                                   (* $ without the m flag *)
| Eps
| Lit (c : char16)
| Cls (p : char16 -> bool)              (* a character class *)
| Opt (r : regex)                       (* r? , greedy *)
| Star (greedy : bool) (p : char16 -> bool)   (* class* and class*? *)
| Cat (r1 r2 : regex)
| Grp (r : regex).                      (* capture group 1 *)

(** The capture of group 1; [None] is [undefined]. *)
Definition captures := option jsstring.

(** A continuation receives the input consumed so far (reversed), the rest
    of the input and the capture. *)
Definition cont := jsstring -> jsstring -> captures -> option captures.

Fixpoint star_greedy (p : char16 -> bool) (k : cont)
    (pre suf : jsstring) (cap : captures) : option captures :=
  match suf with
  | c :: suf' =>
      if p c then
        match star_greedy p k (c :: pre) suf' cap with
        | Some res => Some res
        | None => k pre suf cap
        end
      else k pre suf cap
  | [] => k pre suf cap
  end.

Fixpoint star_lazy (p : char16 -> bool) (k : cont)
    (pre suf : jsstring) (cap : captures) : option captures :=
  match k pre suf cap with
  | Some res => Some res
  | None =>
      match suf with
      | c :: suf' => if p c then star_lazy p k (c :: pre) suf' cap else None
      | [] => None
      end
  end.

Fixpoint rmatch (r : regex) (k : cont)
    (pre suf : jsstring) (cap : captures) : option captures :=
  match r with
  | Bol => match pre with [] => k pre suf cap | _ :: _ => None end
  | Eol => match suf with [] => k pre suf cap | _ :: _ => None end
  | Eps => k pre suf cap
  | Lit c =>
      match suf with
      | x :: suf' => if x =? c then k (x :: pre) suf' cap else None
      | [] => None
      end
  | Cls p =>
      match suf with
      | x :: suf' => if p x then k (x :: pre) suf' cap else None
      | [] => None
      end
  | Opt r1 =>
      match rmatch r1 k pre suf cap with
      | Some res => Some res
      | None => k pre suf cap
      end
  | Star true p => star_greedy p k pre suf cap
  | Star false p => star_lazy p k pre suf cap
  | Cat r1 r2 =>
      rmatch r1 (fun pre' suf' cap' => rmatch r2 k pre' suf' cap') pre suf cap
  | Grp r1 =>
      rmatch r1
        (fun pre' suf' _ =>
           k pre' suf'
             (Some (rev (firstn (List.length pre' - List.length pre)%nat pre'))))
        pre suf cap
  end.

Definition accept : cont := fun _ _ cap => Some cap.

(** A regular expression without the g flag is tried at every start index,
    from the left. *)
Fixpoint search (r : regex) (pre suf : jsstring) : option captures :=
  match rmatch r accept pre suf None with
  | Some cap => Some cap
  | None =>
      match suf with
      | c :: suf' => search r (c :: pre) suf'
      | [] => None
      end
  end.

(** [s.match(r)]: [None] is [null]; [Some cap] is a match whose element 1
    is [cap]. *)
Definition str_match (s : jsstring) (r : regex) : option captures :=
  search r [] s.

Definition lits (s : jsstring) : regex :=
  fold_right (fun c r => Cat (Lit c) r) Eps s.

Definition anyChar : char16 -> bool := fun _ => true.

Declare Scope regex_scope.
Delimit Scope regex_scope with re.
Infix ";;" := Cat (at level 61, right associativity) : regex_scope.

Definition backticks : jsstring := [96; 96; 96].

(** [/^```(?:json)?\s*\n?(.*?)\n?\s*```$/s] *)
Definition fenceRegex : regex :=
  (Bol ;; lits backticks ;; Opt (lits (js "json")) ;; Star true isWhiteSpace ;;
   Opt (Lit 10) ;; Grp (Star false anyChar) ;; Opt (Lit 10) ;;
   Star true isWhiteSpace ;; lits backticks ;; Eol)%re.

(** The unwrapping step of [analyzePronunciation]:
    [if (match && match[1]) jsonStr = match[1].trim()]. *)
Definition stripFence (jsonStr : jsstring) : jsstring :=
  match str_match jsonStr fenceRegex with
  | Some (Some (c :: g)) => trim (c :: g)
  | _ => jsonStr
  end.

(** ** JSON values

    What [JSON.parse] returns.  A number is kept as the literal it was
    written with: the program never computes with one. *)

Inductive JSON : Type :=
| JNull
| JBool (b : bool)
| JNumber (lexeme : jsstring)
| JString (s : jsstring)
| JArray (items : list JSON)
| JObject (members : list (jsstring * JSON)).

(** Property lookup on a parsed object: the last member of that name wins. *)
Fixpoint getMember (key : jsstring) (members : list (jsstring * JSON))
  : option JSON :=
  match members with
  | [] => None
  | (k, v) :: rest =>
      match getMember key rest with
      | Some v' => Some v'
      | None => if str_eqb k key then Some v else None
      end
  end.

(** The shape of the TypeScript type [Feedback]: an object whose members are
    exactly [isCorrect : boolean], [feedback : string] and [tip : string]. *)
Definition feedbackKey (k : jsstring) : bool :=
  str_eqb k (js "isCorrect") || str_eqb k (js "feedback")
  || str_eqb k (js "tip").

Definition isFeedback (v : JSON) : bool :=
  match v with
  | JObject members =>
      forallb (fun kv => feedbackKey (fst kv)) members &&
      match getMember (js "isCorrect") members,
            getMember (js "feedback") members,
            getMember (js "tip") members with
      | Some (JBool _), Some (JString _), Some (JString _) => true
      | _, _, _ => false
      end
  | _ => false
  end.

(** *** A reference [JSON.parse]

    A recursive-descent parser for the JSON grammar, used to run the model
    on concrete responses. *)

Module JsonText.

Definition isSpace (c : char16) : bool :=
  (c =? 32) || (c =? 9) || (c =? 10) || (c =? 13).

Fixpoint skipSpace (s : jsstring) : jsstring :=
  match s with
  | c :: s' => if isSpace c then skipSpace s' else s
  | [] => []
  end.

Definition isDigit (c : char16) : bool := (48 <=? c) && (c <=? 57).

Definition hexValue (c : char16) : option N :=
  if isDigit c then Some (c - 48)
  else if (97 <=? c) && (c <=? 102) then Some (c - 87)
  else if (65 <=? c) && (c <=? 70) then Some (c - 55)
  else None.

Definition hex4 (a b c d : char16) : option char16 :=
  match hexValue a, hexValue b, hexValue c, hexValue d with
  | Some x, Some y, Some z, Some w => Some (((x * 16 + y) * 16 + z) * 16 + w)
  | _, _, _, _ => None
  end.

Definition escapeChar (e : char16) : option char16 :=
  if (e =? 34) || (e =? 92) || (e =? 47) then Some e
  else if e =? 98 then Some 8
  else if e =? 102 then Some 12
  else if e =? 110 then Some 10
  else if e =? 114 then Some 13
  else if e =? 116 then Some 9
  else None.

(** The characters of a string literal, after its opening quote. *)
Fixpoint parseChars (s acc : jsstring) : option (jsstring * jsstring) :=
  match s with
  | [] => None
  | c :: rest =>
      if c =? 34 then Some (rev acc, rest)
      else if c =? 92 then
        match rest with
        | e :: rest' =>
            if e =? 117 then
              match rest' with
              | h1 :: h2 :: h3 :: h4 :: rest'' =>
                  match hex4 h1 h2 h3 h4 with
                  | Some u => parseChars rest'' (u :: acc)
                  | None => None
                  end
              | _ => None
              end
            else
              match escapeChar e with
              | Some u => parseChars rest' (u :: acc)
              | None => None
              end
        | [] => None
        end
      else if c <? 32 then None
      else parseChars rest (c :: acc)
  end.

Fixpoint takeDigits (s : jsstring) : jsstring * jsstring :=
  match s with
  | c :: s' =>
      if isDigit c then let (ds, rest) := takeDigits s' in (c :: ds, rest)
      else ([], s)
  | [] => ([], [])
  end.

(** A number literal: an optional minus sign, an integer part without a
    leading zero, an optional fraction and an optional exponent. *)
Definition parseNumber (s : jsstring) : option (jsstring * jsstring) :=
  let (sign, s1) :=
    match s with
    | c :: r => if c =? 45 then ([c], r) else ([], s)
    | [] => ([], s)
    end in
  let (int, s2) :=
    match s1 with
    | c :: r => if c =? 48 then ([c], r) else takeDigits s1
    | [] => ([], s1)
    end in
  match int with
  | [] => None
  | _ :: _ =>
      let frac :=
        match s2 with
        | c :: r =>
            if c =? 46 then
              match takeDigits r with
              | ([], _) => None
              | (ds, r') => Some (c :: ds, r')
              end
            else Some ([], s2)
        | [] => Some ([], s2)
        end in
      match frac with
      | None => None
      | Some (fr, s3) =>
          match s3 with
          | c :: r =>
              if (c =? 101) || (c =? 69) then
                let (esign, r1) :=
                  match r with
                  | d :: r' =>
                      if (d =? 43) || (d =? 45) then ([d], r') else ([], r)
                  | [] => ([], r)
                  end in
                match takeDigits r1 with
                | ([], _) => None
                | (ds, r2) => Some (sign ++ int ++ fr ++ c :: esign ++ ds, r2)
                end
              else Some (sign ++ int ++ fr, s3)
          | [] => Some (sign ++ int ++ fr, s3)
          end
      end
  end.

Fixpoint parseValue (fuel : nat) (s : jsstring) : option (JSON * jsstring) :=
  match fuel with
  | O => None
  | S fuel' =>
      match skipSpace s with
      | [] => None
      | c :: rest =>
          if c =? 123 then
            match skipSpace rest with
            | d :: rest' =>
                if d =? 125 then Some (JObject [], rest')
                else
                  match parseMembers fuel' rest [] with
                  | Some (ms, r) => Some (JObject ms, r)
                  | None => None
                  end
            | [] => None
            end
          else if c =? 91 then
            match skipSpace rest with
            | d :: rest' =>
                if d =? 93 then Some (JArray [], rest')
                else
                  match parseElements fuel' rest [] with
                  | Some (vs, r) => Some (JArray vs, r)
                  | None => None
                  end
            | [] => None
            end
          else if c =? 34 then
            match parseChars rest [] with
            | Some (str, r) => Some (JString str, r)
            | None => None
            end
          else
            match stripPrefix (js "true") (c :: rest),
                  stripPrefix (js "false") (c :: rest),
                  stripPrefix (js "null") (c :: rest) with
            | Some r, _, _ => Some (JBool true, r)
            | _, Some r, _ => Some (JBool false, r)
            | _, _, Some r => Some (JNull, r)
            | None, None, None =>
                match parseNumber (c :: rest) with
                | Some (lexeme, r) => Some (JNumber lexeme, r)
                | None => None
                end
            end
      end
  end

with parseElements (fuel : nat) (s : jsstring) (acc : list JSON)
  : option (list JSON * jsstring) :=
  match fuel with
  | O => None
  | S fuel' =>
      match parseValue fuel' s with
      | Some (v, rest) =>
          match skipSpace rest with
          | c :: rest' =>
              if c =? 44 then parseElements fuel' rest' (v :: acc)
              else if c =? 93 then Some (rev (v :: acc), rest')
              else None
          | [] => None
          end
      | None => None
      end
  end

with parseMembers (fuel : nat) (s : jsstring) (acc : list (jsstring * JSON))
  : option (list (jsstring * JSON) * jsstring) :=
  match fuel with
  | O => None
  | S fuel' =>
      match skipSpace s with
      | q :: r0 =>
          if q =? 34 then
            match parseChars r0 [] with
            | Some (key, r1) =>
                match skipSpace r1 with
                | colon :: r2 =>
                    if colon =? 58 then
                      match parseValue fuel' r2 with
                      | Some (v, r3) =>
                          match skipSpace r3 with
                          | c :: r4 =>
                              if c =? 44
                              then parseMembers fuel' r4 ((key, v) :: acc)
                              else if c =? 125
                              then Some (rev ((key, v) :: acc), r4)
                              else None
                          | [] => None
                          end
                      | None => None
                      end
                    else None
                | [] => None
                end
            | None => None
            end
          else None
      | [] => None
      end
  end.

(** The whole text is one value, with white space around it; anything else
    is a [SyntaxError] ([None]). *)
Definition parse (text : jsstring) : option JSON :=
  match parseValue (2 * List.length text + 2) text with
  | Some (v, rest) =>
      match skipSpace rest with
      | [] => Some v
      | _ :: _ => None
      end
  | None => None
  end.

End JsonText.

(** ** The platform

    The built-in functions the program calls and that are not its own code.
    [JSON_parse] returns [None] where [JSON.parse] throws. *)

Class Platform : Type := {
  JSON_parse : jsstring -> option JSON;
  toLowerCase : jsstring -> jsstring
}.

(** [toLowerCase] on the ASCII letters; exact on strings of ASCII code
    units. *)
Definition toLowerCase_ascii (s : jsstring) : jsstring :=
  map (fun c => if (65 <=? c) && (c <=? 90) then c + 32 else c) s.

Definition referencePlatform : Platform :=
  {| JSON_parse := JsonText.parse; toLowerCase := toLowerCase_ascii |}.

(** ** The widget (src/App.tsx and index.tsx) *)

Inductive PracticeItem : Type :=
| Pair (wordS ipaS wordSh ipaSh translation : jsstring)
| Sentence (text ipa translation : jsstring).

Definition PRACTICE_ITEMS : list PracticeItem :=
  [ Pair (js "sea") (js "/si" ++ [720] ++ js "/")
         (js "she") (js "/" ++ [643] ++ js "i" ++ [720] ++ js "/")
         ([28023] ++ js " / " ++ [24444; 22899]);
    Pair (js "seat") (js "/si" ++ [720] ++ js "t/")
         (js "sheet") (js "/" ++ [643] ++ js "i" ++ [720] ++ js "t/")
         ([24109] ++ js " / " ++ [12471; 12540; 12484]);
    Pair (js "sell") (js "/sel/")
         (js "shell") (js "/" ++ [643] ++ js "el/")
         ([22770; 12427] ++ js " / " ++ [35997; 27579]);
    Pair (js "self") (js "/self/")
         (js "shelf") (js "/" ++ [643] ++ js "elf/")
         ([33258; 24049] ++ js " / " ++ [26842]);
    Sentence (js "She sells seashells by the seashore.")
         (js "/" ++ [643] ++ js "i" ++ [720] ++ js " selz " ++ [712]
          ++ js "si" ++ [720; 643] ++ js "elz ba" ++ [618] ++ js " "
          ++ [240; 601] ++ js " " ++ [712] ++ js "si"
          ++ [720; 643; 596; 720] ++ js "r/")
         [24444; 22899; 12399; 28023; 23736; 12391; 35997; 27579; 12434;
          22770; 12427] ].

Inductive Status : Type := idle | recording | analyzing | result.

(** The module-level array and the five state cells of the component.  The
    TypeScript type [Feedback | null] of the feedback cell is erased at run
    time: the cell holds a JavaScript value, [JNull] being [null]. *)
Record Store : Type := {
  practiceItems : list PracticeItem;
  currentItemIndex : Z;
  status : Status;
  activeWord : option jsstring;
  feedback : JSON;
  error : jsstring
}.

Definition initialStore : Store :=
  {| practiceItems := PRACTICE_ITEMS;
     currentItemIndex := 0;
     status := idle;
     activeWord := None;
     feedback := JNull;
     error := [] |}.

(** The argument of [ai.getGenerativeModel]. *)
Record ModelParams : Type := {
  model : jsstring;
  responseMimeType : jsstring
}.

(** What a handler does, in program order: calls of the state setters and
    of the outside world. *)
Inductive Action : Type :=
| setCurrentItemIndex (updater : Z -> Z)
| setStatus (s : Status)
| setActiveWord (w : option jsstring)
| setFeedback (v : JSON)
| setError (e : jsstring)
| getUserMedia                   (* navigator.mediaDevices.getUserMedia *)
| recognitionStart               (* recognition.start() *)
| generateContent (params : ModelParams) (prompt : jsstring)
| consoleError.

Definition apply (a : Action) (s : Store) : Store :=
  match a with
  | setCurrentItemIndex f =>
      {| practiceItems := practiceItems s;
         currentItemIndex := f (currentItemIndex s);
         status := status s; activeWord := activeWord s;
         feedback := feedback s; error := error s |}
  | setStatus st =>
      {| practiceItems := practiceItems s;
         currentItemIndex := currentItemIndex s;
         status := st; activeWord := activeWord s;
         feedback := feedback s; error := error s |}
  | setActiveWord w =>
      {| practiceItems := practiceItems s;
         currentItemIndex := currentItemIndex s;
         status := status s; activeWord := w;
         feedback := feedback s; error := error s |}
  | setFeedback v =>
      {| practiceItems := practiceItems s;
         currentItemIndex := currentItemIndex s;
         status := status s; activeWord := activeWord s;
         feedback := v; error := error s |}
  | setError e =>
      {| practiceItems := practiceItems s;
         currentItemIndex := currentItemIndex s;
         status := status s; activeWord := activeWord s;
         feedback := feedback s; error := e |}
  | getUserMedia | recognitionStart | generateContent _ _ | consoleError => s
  end.

Definition run (acts : list Action) (s : Store) : Store :=
  fold_left (fun st a => apply a st) acts s.

(** *** The environment of the page *)

Record Env : Type := {
  mediaDevices : bool;     (* navigator.mediaDevices && ...getUserMedia *)
  SpeechRecognition : bool;
                           (* window.SpeechRecognition || webkit... *)
  API_KEY : option jsstring
}.

(** [ai] is [null] exactly when the key is missing or empty. *)
Definition ai (env : Env) : bool :=
  match API_KEY env with
  | Some (_ :: _) => true
  | _ => false
  end.

(** *** recognizeSpeech *)

Record Alternative : Type := {
  transcript : option jsstring       (* [None] is [undefined] *)
}.

Inductive RecEvent : Type :=
| onresult (results : list (list Alternative))
| onerror (code : jsstring)
| onend
| unhandled.         (* an event the adapter registers no handler for *)

Inductive Promise : Type :=
| Pending
| Fulfilled (value : option jsstring)
| Rejected (reason : jsstring).

(** Settling a settled promise does nothing. *)
Definition resolve (p : Promise) (v : option jsstring) : Promise :=
  match p with Pending => Fulfilled v | _ => p end.

Definition reject (p : Promise) (r : jsstring) : Promise :=
  match p with Pending => Rejected r | _ => p end.

(** [event.results[0][0].transcript]; [None] where the indexing throws. *)
Definition firstTranscript (results : list (list Alternative))
  : option (option jsstring) :=
  match results with
  | (alt :: _) :: _ => Some (transcript alt)
  | _ => None
  end.

Definition dispatch (p : Promise) (ev : RecEvent) : Promise :=
  match ev with
  | onresult results =>
      match firstTranscript results with
      | Some t => resolve p t
      | None => p
      end
  | onerror code => reject p (js "Speech recognition error: " ++ code)
  | onend => p
  | unhandled => p
  end.

Definition notSupported : jsstring :=
  js "Speech recognition not supported in this browser.".

(** The calls the adapter makes and the state of its promise once the
    platform has delivered [events]. *)
Definition recognizeSpeech (supported : bool) (events : list RecEvent)
  : list Action * Promise :=
  if negb supported then ([], reject Pending notSupported)
  else ([recognitionStart], fold_left dispatch events Pending).

(** *** analyzePronunciation *)

(** The template literal of the prompt: its four fixed parts and the three
    interpolated values between them. *)
Definition promptParts : jsstring * jsstring * jsstring * jsstring :=
  (js "You are an expert English pronunciation coach for native Japanese speakers."
   ++ newline ++ js "A user was asked to say: " ++ quote,
   quote ++ js " (IPA: ",
   js ")." ++ newline
   ++ js "Speech recognition transcribed their attempt as: " ++ quote,
   quote ++ js "." ++ newline ++ newline
   ++ js "Analyze this. Respond ONLY with a JSON object in this format:"
   ++ newline ++ js "{" ++ newline
   ++ js "  " ++ quote ++ js "isCorrect" ++ quote ++ js ": boolean," ++ newline
   ++ js "  " ++ quote ++ js "feedback" ++ quote ++ js ": " ++ quote
   ++ js "A short, encouraging message about the pronunciation. Example: 'Good try! It sounded like 'ship' instead of 'sip'."
   ++ quote ++ quote ++ js "," ++ newline
   ++ js "  " ++ quote ++ js "tip" ++ quote ++ js ": " ++ quote
   ++ js "A concrete tip focusing on tongue/lip placement for /s/ vs /"
   ++ [643]
   ++ js "/. Contrast with Japanese sounds if helpful. If correct, give a general encouragement tip."
   ++ quote ++ newline ++ js "}").

Definition prompt (targetWord targetIpa transcript : jsstring) : jsstring :=
  let '(part0, part1, part2, part3) := promptParts in
  part0 ++ targetWord ++ part1 ++ targetIpa ++ part2 ++ transcript ++ part3.

Definition modelParams : ModelParams :=
  {| model := js "gemini-pro"; responseMimeType := js "application/json" |}.

(** How the awaited request ends.  A promise that never settles never
    resumes the handler. *)
Inductive GenOutcome : Type :=
| GenPending              (* the request never settles *)
| GenFails                (* the request rejects or [response.text()] throws *)
| GenText (text : jsstring).

Definition noApiKey : jsstring := js "API key is not configured.".
Definition noFeedback : jsstring :=
  js "Couldn't get feedback from AI. Please try again.".

(** The synchronous blocks of [analyzePronunciation]. *)
Definition analyze_nokey : list Action :=
  [setError noApiKey; setStatus idle].

Definition analyze_begin (targetWord targetIpa transcript : jsstring)
  : list Action :=
  [setStatus analyzing; setError []; setFeedback JNull;
   generateContent modelParams (prompt targetWord targetIpa transcript)].

Definition analyze_catch : list Action :=
  [consoleError; setError noFeedback; setStatus idle].

Definition analyze_end `{Platform} (gen : GenOutcome) : list Action :=
  match gen with
  | GenPending => []
  | GenFails => analyze_catch
  | GenText text =>
      match JSON_parse (stripFence text) with
      | Some feedbackResult => [setFeedback feedbackResult; setStatus result]
      | None => analyze_catch
      end
  end.

Definition analyzePronunciation `{Platform} (env : Env)
    (targetWord targetIpa transcript : jsstring) (gen : GenOutcome)
  : list Action :=
  if negb (ai env) then analyze_nokey
  else analyze_begin targetWord targetIpa transcript ++ analyze_end gen.

(** *** handleRecord *)

(** A value caught by [catch (err)]. *)
Inductive Thrown : Type :=
| ThrownError (name message : jsstring)     (* [err instanceof Error] *)
| ThrownString (s : jsstring)               (* [typeof err === 'string'] *)
| ThrownOther (shown : jsstring).  (* anything else; [shown] is [String(err)] *)

Definition permissionDenied : jsstring :=
  js "Microphone permission denied. Please allow access in your browser settings and try again.".
Definition noMicrophone : jsstring :=
  js "No microphone found. Please connect a microphone and try again.".
Definition microphoneInUse : jsstring :=
  js "Microphone is already in use by another app. Please close it and try again.".
Definition apiKeyProblem : jsstring :=
  js "AI analysis failed. Please check API key configuration and permissions.".
Definition unknownError : jsstring :=
  js "An unknown error occurred during recording.".
Definition noSpeechHeard : jsstring :=
  js "Couldn't hear any speech. Please try speaking a bit louder or closer to the mic.".
Definition noMicrophoneAccess : jsstring :=
  js "Your browser does not support microphone access. Please try on a modern browser like Chrome or Firefox.".
Definition noRecognition : jsstring :=
  js "Speech recognition is not supported in this browser. Please try on a modern browser like Chrome or Firefox.".

(** The [errorMessage] computed in the [catch] block of src/App.tsx. *)
Definition errorMessage `{Platform} (err : Thrown) : jsstring :=
  match err with
  | ThrownError name message =>
      if str_eqb name (js "NotAllowedError")
         || str_eqb name (js "PermissionDeniedError") then permissionDenied
      else if str_eqb name (js "NotFoundError") then noMicrophone
      else if str_eqb name (js "NotReadableError") then microphoneInUse
      else if includes (toLowerCase message) (js "api key") then apiKeyProblem
      else js "An error occurred: " ++ message
  | ThrownString s => s
  | ThrownOther _ => unknownError
  end.

(** [String(err)], as index.tsx shows an error. *)
Definition String_ (err : Thrown) : jsstring :=
  match err with
  | ThrownError name message =>
      match name, message with
      | [], _ => message
      | _, [] => name
      | _, _ => name ++ js ": " ++ message
      end
  | ThrownString s => s
  | ThrownOther shown => shown
  end.

(** A value interpolated into a template string. *)
Definition toStr (v : option jsstring) : jsstring :=
  match v with
  | Some s => s
  | None => js "undefined"
  end.

(** [!transcript || transcript.trim() === ''] *)
Definition blank (t : option jsstring) : bool :=
  match t with
  | None => true
  | Some [] => true
  | Some s => str_eqb (trim s) []
  end.

(** How the awaited [getUserMedia] ends. *)
Inductive GumOutcome : Type :=
| GumPending                    (* the permission prompt is never answered *)
| GumStream
| GumRejects (err : Thrown).

Definition record_begin (word : jsstring) : list Action :=
  [setActiveWord (Some word); setStatus recording; setError [];
   setFeedback JNull].

Module AppTsx.

Definition record_nomedia : list Action :=
  [setError noMicrophoneAccess; setStatus idle].

Definition record_norecognition : list Action :=
  [setError noRecognition; setStatus idle].

Definition record_blank : list Action :=
  [setError noSpeechHeard; setStatus idle].

Definition record_catch `{Platform} (err : Thrown) : list Action :=
  [consoleError; setError (errorMessage err); setStatus idle].

(** [handleRecord] of src/App.tsx, given how each awaited call ends.  A
    promise that stays pending never resumes the handler. *)
Definition handleRecord `{Platform} (env : Env) (word ipa : jsstring)
    (gum : GumOutcome) (events : list RecEvent) (gen : GenOutcome)
  : list Action :=
  if negb (mediaDevices env) then record_nomedia
  else if negb (SpeechRecognition env) then record_norecognition
  else
    record_begin word ++ getUserMedia ::
    match gum with
    | GumPending => []
    | GumRejects err => record_catch err
    | GumStream =>
        let (calls, p) := recognizeSpeech (SpeechRecognition env) events in
        calls ++
        match p with
        | Pending => []
        | Rejected reason => record_catch (ThrownString reason)
        | Fulfilled t =>
            if blank t then record_blank
            else analyzePronunciation env word ipa (toStr t) gen
        end
    end.

End AppTsx.

Module IndexTsx.

Definition record_catch (err : Thrown) : list Action :=
  [consoleError; setError (String_ err); setStatus idle].

(** [handleRecord] of index.tsx. *)
Definition handleRecord `{Platform} (env : Env) (word ipa : jsstring)
    (events : list RecEvent) (gen : GenOutcome) : list Action :=
  record_begin word ++
  let (calls, p) := recognizeSpeech (SpeechRecognition env) events in
  calls ++
  match p with
  | Pending => []
  | Rejected reason => record_catch (ThrownString reason)
  | Fulfilled t => analyzePronunciation env word ipa (toStr t) gen
  end.

End IndexTsx.

(** *** handleNextItem *)

Definition handleNextItem (s : Store) : list Action :=
  [setCurrentItemIndex
     (fun prevIndex =>
        Z.rem (prevIndex + 1) (Z.of_nat (List.length (practiceItems s))));
   setStatus idle; setFeedback JNull; setError []; setActiveWord None].

(** *** The event loop

    A handler runs to its next [await] without interruption; between two
    such blocks any other block may run.  [block env s acts]: [acts] is a
    synchronous block some handler can run in store [s]. *)
Inductive block `{Platform} (env : Env) (s : Store) : list Action -> Prop :=
| block_next : block env s (handleNextItem s)
| block_nomedia :
    mediaDevices env = false -> block env s AppTsx.record_nomedia
| block_norecognition :
    SpeechRecognition env = false -> block env s AppTsx.record_norecognition
| block_begin word : block env s (record_begin word)
| block_media : block env s [getUserMedia]
| block_start : block env s [recognitionStart]
| block_catch err : block env s (AppTsx.record_catch err)
| block_catch_index err : block env s (IndexTsx.record_catch err)
| block_blank : block env s AppTsx.record_blank
| block_nokey : ai env = false -> block env s analyze_nokey
| block_analyze w i t : ai env = true -> block env s (analyze_begin w i t)
| block_answer gen : block env s (analyze_end gen).

Inductive step `{Platform} (env : Env) : Store -> Store -> Prop :=
| step_block s acts : block env s acts -> step env s (run acts s).

Inductive reachable `{Platform} (env : Env) : Store -> Prop :=
| reach_init : reachable env initialStore
| reach_step s s' : reachable env s -> step env s s' -> reachable env s'.

(** ** The backend handler (transcription) *)

Module Backend.

(** The parsed body; the audio data is sent as a base64 encoded string. *)
Record Body : Type := {
  audio : option jsstring            (* [None]: no [audio] member *)
}.

Record Request : Type := {
  method : jsstring;
  body : option Body                 (* [None]: [req.body] is undefined *)
}.

Record RecognitionConfig : Type := {
  encoding : jsstring;
  sampleRateHertz : Z;
  languageCode : jsstring;
  model : jsstring
}.

Record RecognizeRequest : Type := {
  content : jsstring;
  config : RecognitionConfig
}.

Record SpeechAlternative : Type := {
  transcript : jsstring
}.

Record SpeechResult : Type := {
  alternatives : list SpeechAlternative
}.

(** How [speechClient.recognize] ends. *)
Inductive RecognizeOutcome : Type :=
| RecognizeThrows
| RecognizeResponse (results : list SpeechResult).

Inductive Payload : Type :=
| send (text : jsstring)
| json (transcription : jsstring).      (* [{ transcription }] *)

Record Response : Type := {
  statusCode : Z;
  payload : Payload
}.

(** [response.results.map(result => result.alternatives[0].transcript)];
    [None] where a result has no alternative and the access throws. *)
Fixpoint firstTranscripts (results : list SpeechResult)
  : option (list jsstring) :=
  match results with
  | [] => Some []
  | r :: rest =>
      match alternatives r with
      | a :: _ =>
          match firstTranscripts rest with
          | Some ts => Some (transcript a :: ts)
          | None => None
          end
      | [] => None
      end
  end.

Definition recognitionConfig : RecognitionConfig :=
  {| encoding := js "WEBM_OPUS";
     sampleRateHertz := 48000;
     languageCode := js "en-US";
     model := js "default" |}.

Definition internalError : Response :=
  {| statusCode := 500; payload := send (js "Internal Server Error") |}.

(** The handler: the requests it makes to the transcription service and
    its response. *)
Definition handler (recognize : RecognizeRequest -> RecognizeOutcome)
    (req : Request) : list RecognizeRequest * Response :=
  if negb (str_eqb (method req) (js "POST")) then
    ([], {| statusCode := 405; payload := send (js "Method Not Allowed") |})
  else
    match body req with
    | None => ([], internalError)
    | Some b =>
        match audio b with
        | None | Some [] =>
            ([], {| statusCode := 400;
                    payload := send (js "Bad Request: Missing audio data.") |})
        | Some audioBytes =>
            let request :=
              {| content := audioBytes; config := recognitionConfig |} in
            match recognize request with
            | RecognizeThrows => ([request], internalError)
            | RecognizeResponse results =>
                match firstTranscripts results with
                | Some ts =>
                    ([request],
                     {| statusCode := 200;
                        payload := json (join newline ts) |})
                | None => ([request], internalError)
                end
            end
        end
    end.

End Backend.

(** ** Specification vocabulary *)

(** The strings a regular expression can consume: [lang r pre w suf] when
    [r] can match [w] with [pre] (reversed) before it and [suf] after it. *)
Fixpoint lang (r : regex) (pre w suf : jsstring) : Prop :=
  match r with
  | Bol => w = [] /\ pre = []
  | Eol => w = [] /\ suf = []
  | Eps => w = []
  | Lit c => w = [c]
  | Cls p => exists c, w = [c] /\ p c = true
  | Opt r1 => w = [] \/ lang r1 pre w suf
  | Star _ p => forallb p w = true
  | Cat r1 r2 =>
      exists w1 w2, w = w1 ++ w2 /\ lang r1 pre w1 (w2 ++ suf)
                    /\ lang r2 (rev w1 ++ pre) w2 suf
  | Grp r1 => lang r1 pre w suf
  end.

Definition allSpace (s : jsstring) : Prop := forallb isWhiteSpace s = true.

(** A string with no white space at either end. *)
Definition tight (s : jsstring) : Prop :=
  (exists c rest, s = c :: rest /\ isWhiteSpace c = false) /\
  (exists front d, s = front ++ [d] /\ isWhiteSpace d = false).

(** The parts of [fenceRegex] after the opening backticks and the tag. *)
Definition fenceClose : regex :=
  (Star true isWhiteSpace ;; lits backticks ;; Eol)%re.

Definition fenceTail : regex := (Opt (Lit 10) ;; fenceClose)%re.

Definition fenceInner : regex :=
  (Star true isWhiteSpace ;; Opt (Lit 10) ;; Grp (Star false anyChar) ;;
   fenceTail)%re.

(** The tag a fence may carry. *)
Definition fenceTag (tag inner : jsstring) : Prop :=
  tag = js "json" \/ (tag = [] /\ startsWith inner (js "json") = false).

(** What an event does to a pending promise, if anything. *)
Definition settles (ev : RecEvent) : option Promise :=
  match ev with
  | onresult results =>
      match firstTranscript results with
      | Some t => Some (Fulfilled t)
      | None => None
      end
  | onerror code => Some (Rejected (js "Speech recognition error: " ++ code))
  | onend | unhandled => None
  end.

(** The outcome of the first event that settles, [Pending] without one. *)
Fixpoint firstSettled (events : list RecEvent) : Promise :=
  match events with
  | [] => Pending
  | ev :: rest =>
      match settles ev with
      | Some p => p
      | None => firstSettled rest
      end
  end.

(** [n] presses of the next-item button. *)
Fixpoint press (n : nat) (s : Store) : Store :=
  match n with
  | O => s
  | S n' => press n' (run (handleNextItem s) s)
  end.

Definition inBounds (s : Store) : Prop :=
  (0 <= currentItemIndex s < Z.of_nat (List.length PRACTICE_ITEMS))%Z.

(** How many times a trace moves the status to [result], and how many
    times it stores a feedback that is not [null]. *)
Definition isResult (a : Action) : bool :=
  match a with setStatus result => true | _ => false end.

Definition isProduced (a : Action) : bool :=
  match a with
  | setFeedback JNull => false
  | setFeedback _ => true
  | _ => false
  end.

Definition isRequest (a : Action) : bool :=
  match a with generateContent _ _ => true | _ => false end.

Definition count (f : Action -> bool) (acts : list Action) : nat :=
  List.length (filter f acts).

(** Every [setStatus result] of a trace comes right after a [setFeedback v]
    with [P v]; [prev] is the action before the trace. *)
Fixpoint guarded (P : JSON -> Prop) (prev : option Action)
    (acts : list Action) : Prop :=
  match acts with
  | [] => True
  | a :: rest =>
      match a with
      | setStatus result =>
          match prev with
          | Some (setFeedback v) => P v
          | _ => False
          end
      | _ => True
      end /\ guarded P (Some a) rest
  end.

(** The value the response of an analysis parses to. *)
Definition answerOf `{Platform} (gen : GenOutcome) (v : JSON) : Prop :=
  exists text, gen = GenText text /\ JSON_parse (stripFence text) = Some v.

(** The synchronous blocks of the event loop, by name. *)
Inductive Turn : Type :=
| TurnNext
| TurnNoMedia
| TurnNoRecognition
| TurnBegin (word : jsstring)
| TurnMedia
| TurnStart
| TurnCatch (err : Thrown)
| TurnCatchIndex (err : Thrown)
| TurnBlank
| TurnNoKey
| TurnAnalyze (targetWord targetIpa transcript : jsstring)
| TurnAnswer (gen : GenOutcome).

Definition turnActions `{Platform} (s : Store) (t : Turn) : list Action :=
  match t with
  | TurnNext => handleNextItem s
  | TurnNoMedia => AppTsx.record_nomedia
  | TurnNoRecognition => AppTsx.record_norecognition
  | TurnBegin word => record_begin word
  | TurnMedia => [getUserMedia]
  | TurnStart => [recognitionStart]
  | TurnCatch err => AppTsx.record_catch err
  | TurnCatchIndex err => IndexTsx.record_catch err
  | TurnBlank => AppTsx.record_blank
  | TurnNoKey => analyze_nokey
  | TurnAnalyze w i t => analyze_begin w i t
  | TurnAnswer gen => analyze_end gen
  end.

Definition turnEnabled (env : Env) (t : Turn) : bool :=
  match t with
  | TurnNoMedia => negb (mediaDevices env)
  | TurnNoRecognition => negb (SpeechRecognition env)
  | TurnNoKey => negb (ai env)
  | TurnAnalyze _ _ _ => ai env
  | _ => true
  end.

(** The store after a history of turns, oldest first. *)
Fixpoint play `{Platform} (turns : list Turn) (s : Store) : Store :=
  match turns with
  | [] => s
  | t :: rest => play rest (run (turnActions s t) s)
  end.

Definition setsStatus (a : Action) : bool :=
  match a with setStatus _ => true | _ => false end.

(** The last turn of a history that wrote the status; [last] is the one
    before the history. *)
Fixpoint lastStatusTurn `{Platform} (turns : list Turn) (s : Store)
    (last : option Turn) : option Turn :=
  match turns with
  | [] => last
  | t :: rest =>
      lastStatusTurn rest (run (turnActions s t) s)
        (if existsb setsStatus (turnActions s t) then Some t else last)
  end.

(** An analysis that fails: the request or the parsing throws. *)
Definition fails `{Platform} (gen : GenOutcome) : Prop :=
  match gen with
  | GenPending => False
  | GenFails => True
  | GenText text => JSON_parse (stripFence text) = None
  end.

(** The first alternative's transcript of a result that has one. *)
Definition firstOf (r : Backend.SpeechResult) : jsstring :=
  match Backend.alternatives r with
  | a :: _ => Backend.transcript a
  | [] => []
  end.

Definition post (b : option Backend.Body) : Backend.Request :=
  {| Backend.method := js "POST"; Backend.body := b |}.

(** ** Sample inputs *)

(** A transcription service that hears two phrases. *)
Definition sampleRecognize (_ : Backend.RecognizeRequest)
  : Backend.RecognizeOutcome :=
  Backend.RecognizeResponse
    [ {| Backend.alternatives :=
           [ {| Backend.transcript := js "she sells" |};
             {| Backend.transcript := js "sea cells" |} ] |};
      {| Backend.alternatives :=
           [ {| Backend.transcript := js "seashells" |} ] |} ].


Definition sampleEnv : Env :=
  {| mediaDevices := true; SpeechRecognition := true;
     API_KEY := Some (js "key") |}.

Definition sampleObject : jsstring :=
  js "{" ++ quote ++ js "isCorrect" ++ quote ++ js ": true, "
  ++ quote ++ js "feedback" ++ quote ++ js ": " ++ quote ++ js "Good try!"
  ++ quote ++ js ", " ++ quote ++ js "tip" ++ quote ++ js ": " ++ quote
  ++ js "Keep the tongue flat." ++ quote ++ js "}".

Definition sampleFeedback : JSON :=
  JObject [(js "isCorrect", JBool true);
           (js "feedback", JString (js "Good try!"));
           (js "tip", JString (js "Keep the tongue flat."))].

(** The object wrapped in a [json] fence, each on a line of its own. *)
Definition sampleFenced : jsstring :=
  backticks ++ js "json" ++ (newline ++ sampleObject ++ newline) ++ backticks.

Definition heard (t : jsstring) : list RecEvent :=
  [unhandled; onresult [[ {| transcript := Some t |} ]]; onend].

(** ** What the component renders (src/App.tsx, index.tsx) *)


(** [status === 'analyzing' || status === 'recording'] *)
Definition isAnalyzingOrRecording (s : Store) : bool :=
  match status s with
  | analyzing | recording => true
  | idle | result => false
  end.










(** Calls that leave the page: the microphone, the recognizer, the model. *)
Definition isExternal (a : Action) : bool :=
  match a with
  | getUserMedia | recognitionStart | generateContent _ _ => true
  | _ => false
  end.

Definition isMedia (a : Action) : bool :=
  match a with getUserMedia => true | _ => false end.

(** The first alternative of each result, all a response is read for. *)
Definition heads (results : list Backend.SpeechResult)
  : list (option jsstring) :=
  map (fun r => match Backend.alternatives r with
                | a :: _ => Some (Backend.transcript a)
                | [] => None
                end) results.

(** Two outcomes of the transcription service that agree on the first
    alternatives. *)
Definition sameHeads (a b : Backend.RecognizeOutcome) : Prop :=
  match a, b with
  | Backend.RecognizeThrows, Backend.RecognizeThrows => True
  | Backend.RecognizeResponse ra, Backend.RecognizeResponse rb =>
      heads ra = heads rb
  | _, _ => False
  end.


(** A page without microphone access. *)
Definition oldBrowser : Env :=
  {| mediaDevices := false; SpeechRecognition := true;
     API_KEY := Some (js "key") |}.

(** A page built without an API key. *)
Definition keylessEnv : Env :=
  {| mediaDevices := true; SpeechRecognition := true; API_KEY := None |}.

(* ------------------------------------------------------------------ *)
(** * Properties *)

(** ** Strings *)

Lemma str_eqb_eq (a b : jsstring) : str_eqb a b = true <-> a = b.
Proof.
  revert b; induction a as [|x a IH]; intros [|y b]; simpl;
    try (split; [discriminate | congruence]); try tauto.
  rewrite andb_true_iff, N.eqb_eq, IH.
  split; [intros [-> ->]; reflexivity | intros E; injection E; auto].
Qed.

Lemma stripPrefix_app (p s : jsstring) : stripPrefix p (p ++ s) = Some s.
Proof.
  induction p as [|x p IH]; simpl; [reflexivity|].
  rewrite N.eqb_refl; exact IH.
Qed.

Lemma includes_unfold (s sub : jsstring) :
  includes s sub =
  startsWith s sub || match s with _ :: s' => includes s' sub | [] => false end.
Proof. destruct s; reflexivity. Qed.

Lemma includes_app (a sub b : jsstring) : includes (a ++ sub ++ b) sub = true.
Proof.
  induction a as [|x a IH]; simpl.
  - rewrite includes_unfold; unfold startsWith.
    rewrite stripPrefix_app; reflexivity.
  - rewrite IH; apply orb_true_r.
Qed.

Lemma trimStart_split (s : jsstring) :
  exists ws, allSpace ws /\ s = ws ++ trimStart s /\
    match trimStart s with
    | c :: _ => isWhiteSpace c = false
    | [] => True
    end.
Proof.
  induction s as [|c s (ws & Hws & Hs & Hhd)]; simpl.
  - exists []; repeat split.
  - destruct (isWhiteSpace c) eqn:E.
    + exists (c :: ws); repeat split; auto.
      * unfold allSpace; simpl; rewrite E; exact Hws.
      * simpl; congruence.
    + exists []; repeat split; auto.
Qed.

Lemma trimStart_fixed (c : char16) (s : jsstring) :
  isWhiteSpace c = false -> trimStart (c :: s) = c :: s.
Proof. intros E; simpl; rewrite E; reflexivity. Qed.

Lemma allSpace_app (a b : jsstring) :
  allSpace (a ++ b) <-> allSpace a /\ allSpace b.
Proof. unfold allSpace; rewrite forallb_app, andb_true_iff; tauto. Qed.

Lemma allSpace_rev (a : jsstring) : allSpace a -> allSpace (rev a).
Proof.
  unfold allSpace; rewrite !forallb_forall; intros H x Hx.
  apply H, in_rev; exact Hx.
Qed.

(** [trim] removes a run of white space at each end and leaves either the
    empty string or a tight one. *)
Lemma trim_split (s : jsstring) :
  exists ws1 ws2, allSpace ws1 /\ allSpace ws2 /\ s = ws1 ++ trim s ++ ws2 /\
    (trim s = [] \/ tight (trim s)).
Proof.
  destruct (trimStart_split s) as (ws1 & H1 & Hs & Hhd).
  destruct (trimStart_split (rev (trimStart s))) as (ws2 & H2 & Hr & Hlast).
  exists ws1, (rev ws2); unfold trim, trimEnd.
  set (t := trimStart s) in *; set (u := trimStart (rev t)) in *.
  assert (Ht : t = rev u ++ rev ws2).
  { rewrite <- rev_app_distr, <- Hr, rev_involutive; reflexivity. }
  repeat split; auto using allSpace_rev.
  - rewrite <- Ht; exact Hs.
  - destruct u as [|d u']; [left; reflexivity|right].
    split.
    + simpl in *. destruct (rev u') as [|c front] eqn:E; simpl in *.
      * exists d, []; split; auto.
      * rewrite Ht in Hhd; simpl in Hhd. exists c, (front ++ [d]); auto.
    + exists (rev u'), d; simpl; auto.
Qed.

Lemma trim_tight (s : jsstring) : tight s -> trim s = s.
Proof.
  intros [(c & rest & -> & Hc) (front & d & E & Hd)].
  unfold trim, trimEnd; rewrite (trimStart_fixed _ _ Hc), E.
  rewrite rev_app_distr; simpl; rewrite Hd; simpl.
  rewrite rev_involutive; reflexivity.
Qed.

Lemma tight_suffix (s b1 b2 : jsstring) :
  tight s -> s = b1 ++ b2 -> b2 <> [] -> ~ allSpace b2.
Proof.
  intros [_ (front & d & E & Hd)] Hs Hne Hall.
  destruct (exists_last Hne) as (b2' & e & ->).
  rewrite Hs, app_assoc in E; apply app_inj_tail in E as [_ ->].
  apply allSpace_app in Hall as [_ Hall].
  unfold allSpace in Hall; simpl in Hall; rewrite Hd in Hall; discriminate.
Qed.

(** ** The regular-expression matcher *)

Lemma rmatch_Cat (r1 r2 : regex) (k : cont) pre suf cap :
  rmatch (Cat r1 r2) k pre suf cap =
  rmatch r1 (fun pre' suf' cap' => rmatch r2 k pre' suf' cap') pre suf cap.
Proof. reflexivity. Qed.

Lemma rmatch_Opt (r : regex) (k : cont) pre suf cap :
  rmatch (Opt r) k pre suf cap =
  match rmatch r k pre suf cap with
  | Some res => Some res
  | None => k pre suf cap
  end.
Proof. reflexivity. Qed.

Lemma rmatch_Star_greedy (p : char16 -> bool) (k : cont) pre suf cap :
  rmatch (Star true p) k pre suf cap = star_greedy p k pre suf cap.
Proof. reflexivity. Qed.

Lemma rmatch_Grp_lazy (p : char16 -> bool) (k : cont) pre suf cap :
  rmatch (Grp (Star false p)) k pre suf cap =
  star_lazy p
    (fun pre' suf' _ =>
       k pre' suf'
         (Some (rev (firstn (List.length pre' - List.length pre)%nat pre'))))
    pre suf cap.
Proof. reflexivity. Qed.

Lemma rmatch_Bol (k : cont) suf cap :
  rmatch Bol k [] suf cap = k [] suf cap.
Proof. reflexivity. Qed.

Lemma rmatch_Lit_miss (c : char16) (k : cont) pre suf cap :
  match suf with x :: _ => x <> c | [] => True end ->
  rmatch (Lit c) k pre suf cap = None.
Proof.
  destruct suf as [|x suf]; simpl; [reflexivity|].
  intros H; apply N.eqb_neq in H; rewrite H; reflexivity.
Qed.

Lemma rmatch_lits (p : jsstring) (k : cont) pre suf cap :
  rmatch (lits p) k pre suf cap =
  match stripPrefix p suf with
  | Some rest => k (rev p ++ pre) rest cap
  | None => None
  end.
Proof.
  revert pre suf; induction p as [|x p IH]; intros pre suf; [reflexivity|].
  change (lits (x :: p)) with (Cat (Lit x) (lits p)).
  rewrite rmatch_Cat; cbn [rmatch stripPrefix].
  destruct suf as [|y suf]; [reflexivity|].
  rewrite (N.eqb_sym x y); destruct (y =? x) eqn:E; [|reflexivity].
  apply N.eqb_eq in E; subst y.
  rewrite IH; cbn [rev]; rewrite <- app_assoc; reflexivity.
Qed.

Lemma star_greedy_sound (p : char16 -> bool) (k : cont) suf :
  forall pre cap res,
    star_greedy p k pre suf cap = Some res ->
    exists w suf', suf = w ++ suf' /\ forallb p w = true
                   /\ k (rev w ++ pre) suf' cap = Some res.
Proof.
  induction suf as [|c suf IH]; intros pre cap res; simpl.
  - intros H; exists [], []; auto.
  - destruct (p c) eqn:E.
    + destruct (star_greedy p k (c :: pre) suf cap) eqn:G.
      * intros H; injection H as <-.
        destruct (IH _ _ _ G) as (w & suf' & -> & Hw & Hk).
        exists (c :: w), suf'; simpl; rewrite E, <- app_assoc; auto.
      * intros H; exists [], (c :: suf); auto.
    + intros H; exists [], (c :: suf); auto.
Qed.

Lemma star_lazy_sound (p : char16 -> bool) (k : cont) suf :
  forall pre cap res,
    star_lazy p k pre suf cap = Some res ->
    exists w suf', suf = w ++ suf' /\ forallb p w = true
                   /\ k (rev w ++ pre) suf' cap = Some res.
Proof.
  induction suf as [|c suf IH]; intros pre cap res; simpl.
  - destruct (k pre [] cap) eqn:K; [|discriminate].
    intros H; exists [], []; rewrite <- H; auto.
  - destruct (k pre (c :: suf) cap) eqn:K.
    + intros H; exists [], (c :: suf); rewrite <- H; auto.
    + destruct (p c) eqn:E; [|discriminate].
      intros H; destruct (IH _ _ _ H) as (w & suf' & -> & Hw & Hk).
      exists (c :: w), suf'; simpl; rewrite E, <- app_assoc; auto.
Qed.

(** Whatever the matcher accepts is in the language of the expression. *)
Lemma rmatch_sound (r : regex) :
  forall (k : cont) pre suf cap res,
    rmatch r k pre suf cap = Some res ->
    exists w suf' cap',
      suf = w ++ suf' /\ lang r pre w suf'
      /\ k (rev w ++ pre) suf' cap' = Some res.
Proof.
  induction r as [ | | |c|p|r1 IH|g p|r1 IH1 r2 IH2|r1 IH];
    intros k pre suf cap res H; simpl in H.
  - destruct pre; [|discriminate]. exists [], suf, cap; simpl; auto.
  - destruct suf; [|discriminate]. exists [], [], cap; simpl; auto.
  - exists [], suf, cap; simpl; auto.
  - destruct suf as [|x suf]; [discriminate|].
    destruct (x =? c) eqn:E; [|discriminate].
    apply N.eqb_eq in E; subst x. exists [c], suf, cap; simpl; auto.
  - destruct suf as [|x suf]; [discriminate|].
    destruct (p x) eqn:E; [|discriminate].
    exists [x], suf, cap; simpl; repeat split; eauto.
  - destruct (rmatch r1 k pre suf cap) eqn:G.
    + injection H as <-.
      destruct (IH _ _ _ _ _ G) as (w & suf' & cap' & -> & L & K).
      exists w, suf', cap'; simpl; auto.
    + exists [], suf, cap; simpl; auto.
  - destruct g;
      [apply star_greedy_sound in H | apply star_lazy_sound in H];
      destruct H as (w & suf' & -> & Hw & Hk);
      exists w, suf', cap; simpl; auto.
  - apply IH1 in H as (w1 & suf1 & cap1 & -> & L1 & H).
    apply IH2 in H as (w2 & suf2 & cap2 & -> & L2 & H).
    exists (w1 ++ w2), suf2, cap2; split; [apply app_assoc|].
    split; [simpl; exists w1, w2; auto|].
    rewrite rev_app_distr, <- app_assoc; exact H.
  - apply IH in H as (w & suf' & cap' & -> & L & H).
    eexists w, suf', _; simpl; eauto.
Qed.

(** A greedy star takes the whole run when the rest then matches. *)
Lemma star_greedy_max (p : char16 -> bool) (k : cont) ws :
  forall pre rest cap res,
    forallb p ws = true ->
    match rest with c :: _ => p c = false | [] => True end ->
    k (rev ws ++ pre) rest cap = Some res ->
    star_greedy p k pre (ws ++ rest) cap = Some res.
Proof.
  induction ws as [|c ws IH]; intros pre rest cap res Hws Hrest Hk;
    simpl in *.
  - destruct rest as [|c rest]; simpl; [exact Hk|].
    rewrite Hrest; exact Hk.
  - apply andb_true_iff in Hws as [Hc Hws]; rewrite Hc.
    rewrite (IH (c :: pre) rest cap res); auto.
    rewrite <- app_assoc in Hk; exact Hk.
Qed.

(** A lazy star stops at the first split after which the rest matches. *)
Lemma star_lazy_first (k : cont) body :
  forall pre rest cap res,
    (forall b1 b2, body = b1 ++ b2 -> b2 <> [] ->
                   k (rev b1 ++ pre) (b2 ++ rest) cap = None) ->
    k (rev body ++ pre) rest cap = Some res ->
    star_lazy anyChar k pre (body ++ rest) cap = Some res.
Proof.
  induction body as [|c body IH]; intros pre rest cap res Hfail Hk.
  - simpl in *; destruct rest; simpl; rewrite Hk; reflexivity.
  - assert (H0 : k pre ((c :: body) ++ rest) cap = None).
    { apply (Hfail [] (c :: body)); [reflexivity | discriminate]. }
    simpl in *; rewrite H0; apply IH.
    + intros b1 b2 E Hne.
      specialize (Hfail (c :: b1) b2); simpl in Hfail.
      rewrite <- app_assoc in Hfail; apply Hfail; [congruence | exact Hne].
    + rewrite <- app_assoc in Hk; exact Hk.
Qed.

Lemma search_Bol (r : regex) suf :
  forall c pre, search (Bol ;; r)%re (c :: pre) suf = None.
Proof.
  induction suf as [|x suf IH]; intros c pre; simpl; auto.
Qed.

(** ** The code-fence expression *)

Lemma fenceRegex_parts :
  fenceRegex
  = (Bol ;; lits backticks ;; Opt (lits (js "json")) ;; fenceInner)%re.
Proof. reflexivity. Qed.

Lemma fenceClose_ok ws pre cap :
  allSpace ws ->
  rmatch fenceClose accept pre (ws ++ backticks) cap = Some cap.
Proof.
  intros H; unfold fenceClose; rewrite rmatch_Cat; cbn [rmatch].
  apply star_greedy_max; [exact H | reflexivity | reflexivity].
Qed.

Lemma fenceTail_ok ws pre cap :
  allSpace ws ->
  rmatch fenceTail accept pre (ws ++ backticks) cap = Some cap.
Proof.
  intros H; unfold fenceTail; rewrite rmatch_Cat, rmatch_Opt.
  destruct ws as [|c ws].
  - rewrite rmatch_Lit_miss by (simpl; discriminate).
    apply (fenceClose_ok []); reflexivity.
  - destruct (N.eq_dec c 10) as [->|Hc].
    + cbn [rmatch app]; rewrite N.eqb_refl, fenceClose_ok; [reflexivity|].
      unfold allSpace in *; simpl in H; exact H.
    + rewrite rmatch_Lit_miss by (simpl; exact Hc).
      apply fenceClose_ok; exact H.
Qed.

Lemma fenceTail_only pre suf cap res :
  rmatch fenceTail accept pre suf cap = Some res ->
  exists ws, allSpace ws /\ suf = ws ++ backticks.
Proof.
  intros H; apply rmatch_sound in H
    as (w & suf' & cap' & -> & (w1 & w' & -> & L1 & L) & _).
  destruct L as (w2 & w'' & -> & L2 & (w3 & w4 & -> & L3 & L4)).
  simpl in L2, L3, L4.
  destruct L3 as (a & x3 & -> & -> & (b & x4 & -> & -> & (c & x5 & -> & -> & ->))).
  destruct L4 as [-> ->].
  exists (w1 ++ w2); split.
  - apply allSpace_app; split; [|exact L2].
    destruct L1 as [->| ->]; reflexivity.
  - simpl; rewrite !app_nil_r, <- app_assoc; reflexivity.
Qed.

Lemma firstn_consumed (a b : jsstring) :
  firstn (List.length (a ++ b) - List.length b) (a ++ b) = a.
Proof.
  rewrite length_app, Nat.add_sub, firstn_app, firstn_all, Nat.sub_diag.
  simpl; apply app_nil_r.
Qed.

Lemma star_lazy_now (p : char16 -> bool) (k : cont) pre suf cap res :
  k pre suf cap = Some res -> star_lazy p k pre suf cap = Some res.
Proof. intros H; destruct suf; simpl; rewrite H; reflexivity. Qed.

Lemma tight_head (body rest : jsstring) :
  tight body ->
  match body ++ rest with
  | c :: _ => isWhiteSpace c = false /\ c <> 10
  | [] => True
  end.
Proof.
  intros [(c & b & -> & Hc) _]; simpl; split; [exact Hc|].
  intros ->; discriminate.
Qed.

(** Between the tag and the closing backticks the group captures the text
    without the white space around it. *)
Lemma fenceInner_capture ws1 body ws2 pre cap :
  allSpace ws1 -> allSpace ws2 -> tight body ->
  rmatch fenceInner accept pre (ws1 ++ body ++ ws2 ++ backticks) cap
  = Some (Some body).
Proof.
  intros H1 H2 Hb; unfold fenceInner; rewrite rmatch_Cat, rmatch_Star_greedy.
  pose proof (tight_head body (ws2 ++ backticks) Hb) as Hhd.
  apply star_greedy_max; [exact H1 | |].
  - destruct (body ++ ws2 ++ backticks); [exact I | apply Hhd].
  - cbv beta; rewrite rmatch_Cat, rmatch_Opt, rmatch_Lit_miss
      by (destruct (body ++ ws2 ++ backticks); [exact I | apply Hhd]).
    rewrite rmatch_Cat, rmatch_Grp_lazy.
    apply star_lazy_first.
    + intros b1 b2 E Hne.
      match goal with |- ?lhs = None => destruct lhs eqn:G end;
        [exfalso | reflexivity].
      apply fenceTail_only in G as (ws & Hws & E').
      rewrite app_assoc in E'; apply app_inv_tail in E'; subst ws.
      apply allSpace_app in Hws as [Hws _].
      exact (tight_suffix body b1 b2 Hb E Hne Hws).
    + rewrite fenceTail_ok by exact H2.
      rewrite firstn_consumed, rev_involutive; reflexivity.
Qed.

Lemma fenceInner_blank ws pre cap :
  allSpace ws ->
  rmatch fenceInner accept pre (ws ++ backticks) cap = Some (Some []).
Proof.
  intros H; unfold fenceInner; rewrite rmatch_Cat, rmatch_Star_greedy.
  apply star_greedy_max; [exact H | reflexivity |].
  cbv beta; rewrite rmatch_Cat, rmatch_Opt, rmatch_Lit_miss
    by (simpl; discriminate).
  rewrite rmatch_Cat, rmatch_Grp_lazy.
  apply star_lazy_now.
  rewrite (fenceTail_ok []) by reflexivity.
  rewrite Nat.sub_diag; reflexivity.
Qed.

Lemma fenceInner_trim inner pre cap :
  rmatch fenceInner accept pre (inner ++ backticks) cap
  = Some (Some (trim inner)).
Proof.
  destruct (trim_split inner) as (ws1 & ws2 & H1 & H2 & E & Ht).
  remember (trim inner) as body eqn:Hbody; clear Hbody.
  subst inner; destruct Ht as [->|Ht].
  - simpl; apply fenceInner_blank, allSpace_app; auto.
  - rewrite <- !app_assoc; apply fenceInner_capture; assumption.
Qed.

Lemma stripPrefix_app_None (p : jsstring) :
  forall s t,
    stripPrefix p s = None ->
    (forall c, In c t -> ~ In c p) ->
    stripPrefix p (s ++ t) = None.
Proof.
  induction p as [|x p IH]; intros s t; simpl; [discriminate|].
  destruct s as [|y s]; simpl.
  - intros _ Hdisj; destruct t as [|y t]; [reflexivity|].
    destruct (x =? y) eqn:E; [|reflexivity].
    apply N.eqb_eq in E; subst y.
    exfalso; apply (Hdisj x); simpl; auto.
  - destruct (x =? y); [|reflexivity].
    intros H Hdisj; apply IH; [exact H|].
    intros c Hc Hp; apply (Hdisj c Hc); simpl; auto.
Qed.

Lemma json_not_prefix (inner : jsstring) :
  startsWith inner (js "json") = false ->
  stripPrefix (js "json") (inner ++ backticks) = None.
Proof.
  unfold startsWith; intros H; apply stripPrefix_app_None.
  - destruct (stripPrefix (js "json") inner); [discriminate | reflexivity].
  - intros c Hc Hj; simpl in Hc, Hj.
    repeat (destruct Hc as [<-|Hc]);
      repeat (destruct Hj as [Hj|Hj]); try discriminate; auto.
Qed.

Lemma search_unfold (r : regex) pre suf :
  search r pre suf =
  match rmatch r accept pre suf None with
  | Some cap => Some cap
  | None =>
      match suf with
      | c :: suf' => search r (c :: pre) suf'
      | [] => None
      end
  end.
Proof. destruct suf; reflexivity. Qed.

(** A fenced text matches, and group 1 is its trimmed inside. *)
Lemma str_match_fenced (tag inner : jsstring) :
  fenceTag tag inner ->
  str_match (backticks ++ tag ++ inner ++ backticks) fenceRegex
  = Some (Some (trim inner)).
Proof.
  intros Htag; unfold str_match.
  rewrite search_unfold, fenceRegex_parts, rmatch_Cat, rmatch_Bol.
  rewrite rmatch_Cat, rmatch_lits, stripPrefix_app.
  rewrite rmatch_Cat, rmatch_Opt, rmatch_lits.
  destruct Htag as [->|[-> Hj]].
  - rewrite stripPrefix_app, fenceInner_trim; reflexivity.
  - cbn [app]; rewrite (json_not_prefix _ Hj), fenceInner_trim; reflexivity.
Qed.

Lemma lang_lits (p : jsstring) :
  forall pre w suf, lang (lits p) pre w suf -> w = p.
Proof.
  induction p as [|x p IH]; intros pre w suf; simpl; [auto|].
  intros (w1 & w2 & -> & -> & L); rewrite (IH _ _ _ L); reflexivity.
Qed.

Lemma lang_fenceRegex pre w suf :
  lang fenceRegex pre w suf ->
  suf = [] /\ exists mid, w = backticks ++ mid ++ backticks.
Proof.
  rewrite fenceRegex_parts.
  intros (w0 & w' & -> & [-> _] & (w1 & w'' & -> & L1 & (w2 & w3 & -> & _ & L))).
  apply lang_lits in L1; subst w1.
  destruct L as (a1 & r1 & -> & _ & (a2 & r2 & -> & _ & (a3 & r3 & -> & _ & L))).
  destruct L
    as (a4 & r4 & -> & _ & (a5 & r5 & -> & _ & (a6 & r6 & -> & L6 & [-> ->]))).
  apply lang_lits in L6; subst a6.
  split; [reflexivity|].
  exists (w2 ++ a1 ++ a2 ++ a3 ++ a4 ++ a5).
  rewrite app_nil_r, <- !app_assoc; reflexivity.
Qed.

(** A text that is not wrapped in backticks does not match. *)
Lemma str_match_unfenced (text : jsstring) :
  (forall mid, text <> backticks ++ mid ++ backticks) ->
  str_match text fenceRegex = None.
Proof.
  intros H; unfold str_match; rewrite search_unfold.
  destruct (rmatch fenceRegex accept [] text None) eqn:G.
  - apply rmatch_sound in G as (w & suf' & cap' & -> & L & _).
    apply lang_fenceRegex in L as (-> & mid & ->).
    exfalso; apply (H mid), app_nil_r.
  - destruct text; [reflexivity | apply search_Bol].
Qed.

(** What the unwrapping step returns. *)
Lemma stripFence_fenced (tag inner : jsstring) :
  fenceTag tag inner -> trim inner <> [] ->
  stripFence (backticks ++ tag ++ inner ++ backticks) = trim inner.
Proof.
  intros Htag Hne; unfold stripFence; rewrite (str_match_fenced _ _ Htag).
  destruct (trim_split inner) as (_ & _ & _ & _ & _ & [E|Ht]);
    [contradiction|].
  rewrite <- (trim_tight _ Ht) at 2.
  destruct (trim inner); [contradiction | reflexivity].
Qed.

Lemma stripFence_blank (tag inner : jsstring) :
  fenceTag tag inner -> trim inner = [] ->
  stripFence (backticks ++ tag ++ inner ++ backticks)
  = backticks ++ tag ++ inner ++ backticks.
Proof.
  intros Htag E; unfold stripFence.
  rewrite (str_match_fenced _ _ Htag), E; reflexivity.
Qed.

Lemma stripFence_unfenced (text : jsstring) :
  (forall mid, text <> backticks ++ mid ++ backticks) ->
  stripFence text = text.
Proof.
  intros H; unfold stripFence; rewrite (str_match_unfenced _ H); reflexivity.
Qed.

(** ** The store *)

Lemma run_app (a b : list Action) (s : Store) :
  run (a ++ b) s = run b (run a s).
Proof. apply fold_left_app. Qed.

Lemma run_cons (a : Action) (acts : list Action) (s : Store) :
  run (a :: acts) s = run acts (apply a s).
Proof. reflexivity. Qed.

(** No action writes the module-level array. *)
Lemma run_items (acts : list Action) :
  forall s, practiceItems (run acts s) = practiceItems s.
Proof.
  induction acts as [|a acts IH]; intros s; [reflexivity|].
  rewrite run_cons, IH; destruct a; reflexivity.
Qed.

Lemma count_app (f : Action -> bool) (a b : list Action) :
  count f (a ++ b) = (count f a + count f b)%nat.
Proof. unfold count; rewrite filter_app, length_app; reflexivity. Qed.

Section Widget.

Context `{P : Platform}.

Lemma block_index (env : Env) (s : Store) (acts : list Action) :
  block env s acts ->
  acts = handleNextItem s \/
  currentItemIndex (run acts s) = currentItemIndex s.
Proof.
  intros B; destruct B; auto; right; try reflexivity.
  destruct gen as [| |text]; simpl; [reflexivity|reflexivity|].
  destruct (JSON_parse (stripFence text)); reflexivity.
Qed.

Lemma next_index (s : Store) :
  practiceItems s = PRACTICE_ITEMS -> inBounds s ->
  currentItemIndex (run (handleNextItem s) s)
  = ((currentItemIndex s + 1) mod Z.of_nat (List.length PRACTICE_ITEMS))%Z.
Proof.
  intros Hi Hb; unfold inBounds in Hb; simpl in *; rewrite Hi; simpl.
  apply Z.rem_mod_nonneg; lia.
Qed.

Lemma next_inBounds (s : Store) :
  practiceItems s = PRACTICE_ITEMS -> inBounds s ->
  inBounds (run (handleNextItem s) s).
Proof.
  intros Hi Hb; unfold inBounds; rewrite (next_index s Hi Hb).
  apply Z.mod_pos_bound; simpl; lia.
Qed.

Lemma press_index (n : nat) :
  forall s, practiceItems s = PRACTICE_ITEMS -> inBounds s ->
    currentItemIndex (press n s)
    = ((currentItemIndex s + Z.of_nat n)
         mod Z.of_nat (List.length PRACTICE_ITEMS))%Z.
Proof.
  induction n as [|n IH]; intros s Hi Hb.
  - simpl; rewrite Z.add_0_r; symmetry; apply Z.mod_small; exact Hb.
  - cbn [press]; rewrite IH.
    + rewrite (next_index s Hi Hb), Zplus_mod_idemp_l; f_equal; lia.
    + rewrite run_items; exact Hi.
    + apply next_inBounds; assumption.
Qed.

Lemma reachable_items (env : Env) (s : Store) :
  reachable env s -> practiceItems s = PRACTICE_ITEMS /\ inBounds s.
Proof.
  induction 1 as [|s s' _ [Hi Hb] St].
  - split; [reflexivity | unfold inBounds; simpl; lia].
  - destruct St as [s acts B]; split; [rewrite run_items; exact Hi|].
    destruct (block_index _ _ _ B) as [->|E].
    + apply next_inBounds; assumption.
    + unfold inBounds; rewrite E; exact Hb.
Qed.

(** C3: the practice-item list is fixed and is never modified by any
    operation, and [handleNextItem] cycles the index through it: from an
    index [i] within bounds the next index is [(i + 1) mod length], which is
    within bounds again, and after [length] presses the index is back where
    it started.  Every store the widget can reach holds the original list
    and an index within bounds. *)
Theorem C3_items_fixed_index_cycles (s : Store) :
  practiceItems s = PRACTICE_ITEMS -> inBounds s ->
  currentItemIndex (run (handleNextItem s) s)
  = ((currentItemIndex s + 1) mod Z.of_nat (List.length PRACTICE_ITEMS))%Z
  /\ inBounds (run (handleNextItem s) s)
  /\ currentItemIndex (press (List.length PRACTICE_ITEMS) s)
     = currentItemIndex s
  /\ (forall acts, practiceItems (run acts s) = PRACTICE_ITEMS)
  /\ (forall env s', reachable env s' ->
        practiceItems s' = PRACTICE_ITEMS /\ inBounds s').
Proof.
  intros Hi Hb.
  split; [apply next_index; assumption|].
  split; [apply next_inBounds; assumption|].
  split.
  - rewrite (press_index _ s Hi Hb).
    change (Z.of_nat (List.length PRACTICE_ITEMS)) with 5%Z.
    replace (currentItemIndex s + 5)%Z with (currentItemIndex s + 1 * 5)%Z
      by lia.
    rewrite Z_mod_plus_full; apply Z.mod_small; exact Hb.
  - split; [intros acts; rewrite run_items; exact Hi|].
    intros env s'; apply reachable_items.
Qed.

End Widget.

Lemma C3_witness :
  practiceItems initialStore = PRACTICE_ITEMS /\ inBounds initialStore /\
  currentItemIndex (run (handleNextItem initialStore) initialStore) = 1%Z /\
  currentItemIndex (press 5 initialStore) = 0%Z.
Proof.
  assert (Hb : inBounds initialStore) by (unfold inBounds; simpl; lia).
  split; [reflexivity|]; split; [exact Hb|].
  destruct (@C3_items_fixed_index_cycles referencePlatform initialStore
              eq_refl Hb) as (H1 & _ & H2 & _).
  split; [exact H1 | exact H2].
Defined.

Section Handlers.

Context `{P : Platform}.

Lemma recognizeSpeech_calls (supported : bool) (events : list RecEvent) :
  fst (recognizeSpeech supported events) = []
  \/ fst (recognizeSpeech supported events) = [recognitionStart].
Proof. unfold recognizeSpeech; destruct supported; simpl; auto. Qed.

Ltac unfold_blocks :=
  unfold record_begin, AppTsx.record_nomedia, AppTsx.record_norecognition,
    AppTsx.record_blank, AppTsx.record_catch, IndexTsx.record_catch,
    analyze_nokey, analyze_begin, analyze_catch in *.

Ltac counts := unfold count; unfold_blocks; simpl; lia.

Lemma count_analyze_end (f : Action -> bool) (gen : GenOutcome) :
  f = isProduced \/ f = isResult ->
  (count f (analyze_end gen) <= 1)%nat.
Proof.
  intros Hf; unfold analyze_end.
  destruct gen as [| |text]; [destruct Hf as [->| ->]; counts..|].
  destruct (JSON_parse (stripFence text)) as [v|];
    [|destruct Hf as [->| ->]; counts].
  destruct Hf as [->| ->]; [destruct v|]; counts.
Qed.

Lemma count_analyze (f : Action -> bool) (env : Env) (w i t : jsstring)
    (gen : GenOutcome) :
  f = isProduced \/ f = isResult ->
  (count f (analyzePronunciation env w i t gen) <= 1)%nat.
Proof.
  intros Hf; unfold analyzePronunciation.
  destruct (ai env); simpl negb; cbv iota;
    [|destruct Hf as [->| ->]; counts].
  rewrite count_app; pose proof (count_analyze_end f gen Hf).
  assert (count f (analyze_begin w i t) = 0%nat)
    by (destruct Hf as [->| ->]; reflexivity).
  lia.
Qed.

Lemma count_record_begin (f : Action -> bool) (word : jsstring)
    (calls tail : list Action) :
  f = isProduced \/ f = isResult ->
  calls = [] \/ calls = [recognitionStart] ->
  count f (record_begin word ++ calls ++ tail) = count f tail
  /\ count f (record_begin word ++ getUserMedia :: calls ++ tail)
     = count f tail.
Proof.
  intros [->| ->] [->| ->]; split; reflexivity.
Qed.

Lemma count_record_app (f : Action -> bool) (env : Env) word ipa gum
    events gen :
  f = isProduced \/ f = isResult ->
  (count f (AppTsx.handleRecord env word ipa gum events gen) <= 1)%nat.
Proof.
  intros Hf; unfold AppTsx.handleRecord.
  destruct (mediaDevices env); [|destruct Hf as [->| ->]; counts].
  destruct (SpeechRecognition env) eqn:S;
    [|destruct Hf as [->| ->]; counts].
  simpl negb; cbv iota.
  destruct gum as [| |err];
    [destruct Hf as [->| ->]; counts| |destruct Hf as [->| ->]; counts].
  pose proof (recognizeSpeech_calls true events) as Hcalls.
  destruct (recognizeSpeech true events) as [calls p]; simpl in Hcalls.
  destruct (count_record_begin f word calls
              match p with
              | Pending => []
              | Fulfilled t =>
                  if blank t then AppTsx.record_blank
                  else analyzePronunciation env word ipa (toStr t) gen
              | Rejected reason => AppTsx.record_catch (ThrownString reason)
              end Hf Hcalls) as [_ ->].
  destruct p as [|t|reason]; try (destruct Hf as [->| ->]; counts).
  destruct (blank t); [destruct Hf as [->| ->]; counts|].
  apply count_analyze; exact Hf.
Qed.

Lemma count_record_index (f : Action -> bool) (env : Env) word ipa
    events gen :
  f = isProduced \/ f = isResult ->
  (count f (IndexTsx.handleRecord env word ipa events gen) <= 1)%nat.
Proof.
  intros Hf; unfold IndexTsx.handleRecord.
  pose proof (recognizeSpeech_calls (SpeechRecognition env) events) as Hcalls.
  destruct (recognizeSpeech (SpeechRecognition env) events) as [calls p];
    simpl in Hcalls.
  destruct (count_record_begin f word calls
              match p with
              | Pending => []
              | Fulfilled t => analyzePronunciation env word ipa (toStr t) gen
              | Rejected reason => IndexTsx.record_catch (ThrownString reason)
              end Hf Hcalls) as [-> _].
  destruct p as [|t|reason]; try (destruct Hf as [->| ->]; counts).
  apply count_analyze; exact Hf.
Qed.

(** C5: pressing "next item" discards the feedback of the previous attempt:
    after [handleNextItem] the feedback is null, the status is idle, the
    error string is empty and no word is active; and one recording attempt
    ([handleRecord] of either file) stores a feedback result and moves to
    the result status at most once. *)
Theorem C5_next_item_discards_feedback (env : Env) (s : Store)
    (word ipa : jsstring) (gum : GumOutcome) (events : list RecEvent)
    (gen : GenOutcome) :
  (feedback (run (handleNextItem s) s) = JNull
   /\ status (run (handleNextItem s) s) = idle
   /\ error (run (handleNextItem s) s) = []
   /\ activeWord (run (handleNextItem s) s) = None)
  /\ (count isProduced (AppTsx.handleRecord env word ipa gum events gen) <= 1
      /\ count isResult (AppTsx.handleRecord env word ipa gum events gen) <= 1
      /\ count isProduced (IndexTsx.handleRecord env word ipa events gen) <= 1
      /\ count isResult (IndexTsx.handleRecord env word ipa events gen) <= 1)%nat.
Proof.
  split; [repeat split|].
  repeat split;
    first [apply count_record_app | apply count_record_index]; auto.
Qed.

Lemma includes_mid (s a sub b : jsstring) :
  s = a ++ sub ++ b -> includes s sub = true.
Proof. intros ->; apply includes_app. Qed.

Lemma analyze_requests (env : Env) (w i t : jsstring) (gen : GenOutcome)
    (params : ModelParams) (sent : jsstring) :
  In (generateContent params sent) (analyzePronunciation env w i t gen) ->
  params = modelParams /\ sent = prompt w i t.
Proof.
  unfold analyzePronunciation, analyze_end; unfold_blocks.
  destruct (ai env); simpl; [|intuition discriminate].
  intros [F|[F|[F|[F|Hin]]]]; try discriminate.
  - injection F as <- <-; auto.
  - exfalso; destruct gen as [| |text]; simpl in Hin;
      [contradiction|intuition discriminate|].
    destruct (JSON_parse (stripFence text)); simpl in Hin;
      intuition discriminate.
Qed.

(** C6: the prompt built by [analyzePronunciation] contains the target
    word, its IPA transcription and the recognized transcript; every
    request to the text-generation endpoint carries that prompt and is
    configured with the response MIME type [application/json]; and with an
    API key configured the request is made. *)
Theorem C6_prompt_and_json_mode (env : Env)
    (targetWord targetIpa transcript : jsstring) (gen : GenOutcome) :
  includes (prompt targetWord targetIpa transcript) targetWord = true
  /\ includes (prompt targetWord targetIpa transcript) targetIpa = true
  /\ includes (prompt targetWord targetIpa transcript) transcript = true
  /\ (forall params sent,
        In (generateContent params sent)
           (analyzePronunciation env targetWord targetIpa transcript gen) ->
        sent = prompt targetWord targetIpa transcript
        /\ responseMimeType params = js "application/json")
  /\ (ai env = true ->
      In (generateContent modelParams
            (prompt targetWord targetIpa transcript))
         (analyzePronunciation env targetWord targetIpa transcript gen)).
Proof.
  unfold prompt at 1 2 3; destruct promptParts as [[[p0 p1] p2] p3].
  split; [apply includes_app|].
  split; [apply (includes_mid _ (p0 ++ targetWord ++ p1) _
                   (p2 ++ transcript ++ p3));
          rewrite <- !app_assoc; reflexivity|].
  split; [apply (includes_mid _ (p0 ++ targetWord ++ p1 ++ targetIpa ++ p2)
                   _ p3);
          rewrite <- !app_assoc; reflexivity|].
  split.
  - intros params sent Hin.
    destruct (analyze_requests _ _ _ _ _ _ _ Hin) as [-> ->]; auto.
  - intros Hai; unfold analyzePronunciation; rewrite Hai.
    apply in_or_app; left; unfold analyze_begin; simpl; auto.
Qed.

Lemma str_eqb_neq (a b : jsstring) : a <> b -> str_eqb a b = false.
Proof.
  intros H; destruct (str_eqb a b) eqn:E; [|reflexivity].
  apply str_eqb_eq in E; contradiction.
Qed.


(** C8: when the analysis step throws (the request fails or the response
    does not parse as JSON), [analyzePronunciation] leaves the feedback
    null, shows its error message and returns the status to idle; the item
    index, the active word and the item list are untouched, and the trace
    never sets the status to result nor stores a feedback. *)
Theorem C8_failed_analysis (env : Env) (targetWord targetIpa transcript : jsstring)
    (gen : GenOutcome) (s : Store) :
  ai env = true -> fails gen ->
  let acts := analyzePronunciation env targetWord targetIpa transcript gen in
  feedback (run acts s) = JNull
  /\ error (run acts s) = noFeedback
  /\ status (run acts s) = idle
  /\ currentItemIndex (run acts s) = currentItemIndex s
  /\ activeWord (run acts s) = activeWord s
  /\ practiceItems (run acts s) = practiceItems s
  /\ ~ In (setStatus result) acts
  /\ count isProduced acts = 0%nat.
Proof.
  intros Hai Hfail acts; subst acts; unfold analyzePronunciation.
  rewrite Hai; simpl negb; cbv iota.
  assert (E : analyze_end gen = analyze_catch).
  { destruct gen as [| |text]; [contradiction|reflexivity|].
    simpl in *; rewrite Hfail; reflexivity. }
  rewrite E; repeat split; try reflexivity.
  unfold analyze_begin, analyze_catch; simpl; intuition discriminate.
Qed.

Lemma trimStart_allSpace (str : jsstring) : allSpace str -> trimStart str = [].
Proof.
  unfold allSpace; induction str as [|c str IH]; simpl; [reflexivity|].
  intros H; apply andb_true_iff in H as [-> H]; auto.
Qed.

Lemma trim_allSpace (str : jsstring) : allSpace str <-> trim str = [].
Proof.
  split.
  - intros H; unfold trim; rewrite (trimStart_allSpace _ H); reflexivity.
  - intros E; destruct (trim_split str) as (ws1 & ws2 & H1 & H2 & Hs & _).
    rewrite Hs, E; apply allSpace_app; auto.
Qed.

(** [blank] holds exactly of an absent, empty or all-white-space value. *)
Lemma blank_iff (t : option jsstring) :
  blank t = true <-> t = None \/ exists str, t = Some str /\ allSpace str.
Proof.
  destruct t as [[|c str]|]; simpl.
  - split; [right; exists []; split; reflexivity | reflexivity].
  - rewrite str_eqb_eq; fold (trim (c :: str)); rewrite <- trim_allSpace.
    split; [intros H; right; eauto|].
    intros [F|(x & E & H)]; [discriminate | injection E as <-; exact H].
  - split; [auto | reflexivity].
Qed.

(** C9: when the recognized transcript is absent or consists only of white
    space, [handleRecord] (src/App.tsx) makes no analysis request: it sets
    the couldn't-hear-any-speech message, returns the status to idle and
    stops. *)
Theorem C9_blank_transcript_skips_analysis (env : Env) (word ipa : jsstring)
    (events : list RecEvent) (gen : GenOutcome) (t : option jsstring)
    (s : Store) :
  mediaDevices env = true -> SpeechRecognition env = true ->
  snd (recognizeSpeech true events) = Fulfilled t ->
  t = None \/ (exists str, t = Some str /\ allSpace str) ->
  let acts := AppTsx.handleRecord env word ipa GumStream events gen in
  acts = record_begin word ++ [getUserMedia; recognitionStart]
         ++ AppTsx.record_blank
  /\ count isRequest acts = 0%nat
  /\ error (run acts s) = noSpeechHeard
  /\ status (run acts s) = idle.
Proof.
  intros Hm Hs Hp Ht acts.
  assert (E : acts = record_begin word ++ [getUserMedia; recognitionStart]
                     ++ AppTsx.record_blank).
  { subst acts; unfold AppTsx.handleRecord.
    rewrite Hm, Hs; simpl negb; cbv iota.
    unfold recognizeSpeech in *; simpl in *; rewrite Hp.
    apply blank_iff in Ht; rewrite Ht; reflexivity. }
  rewrite E; repeat split.
Qed.

End Handlers.

(** ** The recognition adapter *)

Lemma dispatch_settled (events : list RecEvent) :
  forall p, p <> Pending -> fold_left dispatch events p = p.
Proof.
  induction events as [|ev events IH]; intros p Hp; simpl; [reflexivity|].
  assert (E : dispatch p ev = p).
  { destruct p as [|v|r]; [contradiction| |];
      destruct ev as [results| | |]; simpl; try reflexivity;
      destruct (firstTranscript results); reflexivity. }
  rewrite E; apply IH; exact Hp.
Qed.

Lemma dispatch_first (events : list RecEvent) :
  fold_left dispatch events Pending = firstSettled events.
Proof.
  induction events as [|ev events IH]; simpl; [reflexivity|].
  destruct ev as [results|code| |]; simpl; auto.
  - destruct (firstTranscript results); simpl; auto.
    apply dispatch_settled; discriminate.
  - apply dispatch_settled; discriminate.
Qed.

Lemma firstSettled_quiet (before after : list RecEvent) :
  (forall ev, In ev before -> settles ev = None) ->
  firstSettled (before ++ after) = firstSettled after.
Proof.
  induction before as [|ev before IH]; intros H; simpl; [reflexivity|].
  rewrite (H ev) by (left; reflexivity).
  apply IH; intros ev' Hin; apply H; right; exact Hin.
Qed.

Lemma firstSettled_once (events more : list RecEvent) :
  firstSettled events <> Pending ->
  firstSettled (events ++ more) = firstSettled events.
Proof.
  induction events as [|ev events IH]; simpl; [contradiction|].
  destruct (settles ev); auto.
Qed.

(** C2 (amended): the recognition adapter is a single-shot promise wrapper.
    Without speech recognition it rejects with the unsupported-browser
    message and starts nothing.  Otherwise it starts recognition (in
    src/App.tsx after [handleRecord] has asked for the microphone) and the
    promise settles at the first result event that carries a transcript or
    the first error event, whichever comes first: it resolves with
    [results[0][0].transcript] or rejects with the recognition error code in
    a reason string; later events change nothing; an invocation that gets
    neither event stays pending. *)
Theorem C2_recognition_adapter `{P : Platform} (events : list RecEvent) :
  recognizeSpeech false events = ([], Rejected notSupported)
  /\ recognizeSpeech true events = ([recognitionStart], firstSettled events)
  /\ (forall before results t after,
        (forall ev, In ev before -> settles ev = None) ->
        firstTranscript results = Some t ->
        events = before ++ onresult results :: after ->
        firstSettled events = Fulfilled t)
  /\ (forall before code after,
        (forall ev, In ev before -> settles ev = None) ->
        events = before ++ onerror code :: after ->
        firstSettled events
        = Rejected (js "Speech recognition error: " ++ code)
        /\ includes (js "Speech recognition error: " ++ code) code = true)
  /\ (forall more,
        firstSettled events <> Pending ->
        firstSettled (events ++ more) = firstSettled events)
  /\ ((forall ev, In ev events -> settles ev = None) ->
      firstSettled events = Pending)
  /\ (forall env word ipa gum gen,
        mediaDevices env = true -> SpeechRecognition env = true ->
        exists tail,
          AppTsx.handleRecord env word ipa gum events gen
          = record_begin word ++ getUserMedia :: tail).
Proof.
  split; [reflexivity|].
  split; [unfold recognizeSpeech; simpl; rewrite dispatch_first; reflexivity|].
  split.
  { intros before results t after Hq Ht ->.
    rewrite (firstSettled_quiet _ _ Hq); simpl; rewrite Ht; reflexivity. }
  split.
  { intros before code after Hq ->; split.
    - rewrite (firstSettled_quiet _ _ Hq); reflexivity.
    - apply (includes_mid _ (js "Speech recognition error: ") code []).
      rewrite app_nil_r; reflexivity. }
  split; [intros more; apply firstSettled_once|].
  split.
  { intros Hq; rewrite <- (app_nil_r events).
    rewrite (firstSettled_quiet _ _ Hq); reflexivity. }
  intros env word ipa gum gen Hm Hs; unfold AppTsx.handleRecord.
  rewrite Hm, Hs; simpl negb; cbv iota; eauto.
Qed.

(** C2, as stated, fails: a recognition session that ends with no result
    and no error leaves the promise pending for ever, neither resolved nor
    rejected, and [handleRecord] stays in the recording status. *)
Lemma C2_counterexample :
  snd (recognizeSpeech true [unhandled; onend]) = Pending
  /\ status
       (run (@AppTsx.handleRecord referencePlatform sampleEnv (js "sea")
               (js "/si" ++ [720] ++ js "/") GumStream [unhandled; onend]
               GenFails)
            initialStore)
     = recording.
Proof. split; reflexivity. Qed.

(** ** Feedback and the result status *)

Section Feedback.

Context `{P : Platform}.

Lemma run_analyze_text (env : Env) (w i t text : jsstring) (s : Store) :
  ai env = true ->
  run (analyzePronunciation env w i t (GenText text)) s
  = match JSON_parse (stripFence text) with
    | Some v =>
        {| practiceItems := practiceItems s;
           currentItemIndex := currentItemIndex s;
           status := result; activeWord := activeWord s;
           feedback := v; error := [] |}
    | None =>
        {| practiceItems := practiceItems s;
           currentItemIndex := currentItemIndex s;
           status := idle; activeWord := activeWord s;
           feedback := JNull; error := noFeedback |}
    end.
Proof.
  intros Hai; unfold analyzePronunciation; rewrite Hai; simpl negb; cbv iota.
  rewrite run_app; unfold analyze_end.
  destruct (JSON_parse (stripFence text)); reflexivity.
Qed.

(** C1 (amended): for every string the text-generation service returns,
    [analyzePronunciation] strips a surrounding markdown code fence (three
    backticks, with or without the tag json) when the whole string is so
    wrapped and the wrapped text is not blank, parses the remainder as JSON
    and stores the parsed value as the feedback result as it is: whatever
    value the text parses to is stored and shown, with no check of its
    fields; a text that does not parse leaves the feedback null. *)
Theorem C1_feedback_is_parsed_response (env : Env)
    (targetWord targetIpa transcript text : jsstring) (s : Store) :
  ai env = true ->
  let final :=
    run (analyzePronunciation env targetWord targetIpa transcript
           (GenText text)) s in
  (forall tag inner,
      fenceTag tag inner ->
      text = backticks ++ tag ++ inner ++ backticks ->
      stripFence text = match trim inner with [] => text | body => body end)
  /\ ((forall mid, text <> backticks ++ mid ++ backticks) ->
      stripFence text = text)
  /\ (forall v,
        JSON_parse (stripFence text) = Some v ->
        feedback final = v /\ status final = result /\ error final = [])
  /\ (JSON_parse (stripFence text) = None ->
      feedback final = JNull /\ status final = idle
      /\ error final = noFeedback).
Proof.
  intros Hai final; subst final; rewrite (run_analyze_text _ _ _ _ _ _ Hai).
  split.
  { intros tag inner Htag ->.
    destruct (trim inner) eqn:E.
    - apply stripFence_blank; assumption.
    - rewrite <- E; apply stripFence_fenced; [assumption | congruence]. }
  split; [apply stripFence_unfenced|].
  split; [intros v -> | intros ->]; repeat split.
Qed.

Lemma guarded_app (Q : JSON -> Prop) (a b : list Action) :
  forall prev,
    guarded Q prev a -> (forall prev', guarded Q prev' b) ->
    guarded Q prev (a ++ b).
Proof.
  induction a as [|x a IH]; intros prev Ha Hb; simpl; [apply Hb|].
  destruct Ha as [Hx Ha]; split; [exact Hx | apply IH; assumption].
Qed.

Lemma guarded_quiet (Q : JSON -> Prop) (acts : list Action) :
  count isResult acts = 0%nat -> forall prev, guarded Q prev acts.
Proof.
  unfold count; induction acts as [|a acts IH]; intros H prev; simpl;
    [exact I|].
  simpl in H; destruct (isResult a) eqn:E; [discriminate|].
  split; [|apply IH; exact H].
  destruct a as [| [] | | | | | | |]; try exact I; discriminate.
Qed.

Lemma guarded_analyze_end (gen : GenOutcome) :
  forall prev, guarded (answerOf gen) prev (analyze_end gen).
Proof.
  intros prev; unfold analyze_end; destruct gen as [| |text];
    [apply guarded_quiet; reflexivity..|].
  destruct (JSON_parse (stripFence text)) as [v|] eqn:E;
    [|apply guarded_quiet; reflexivity].
  simpl; repeat split; exists text; auto.
Qed.

Lemma guarded_analyze (env : Env) (w i t : jsstring) (gen : GenOutcome) :
  forall prev,
    guarded (answerOf gen) prev (analyzePronunciation env w i t gen).
Proof.
  intros prev; unfold analyzePronunciation.
  destruct (ai env); simpl negb; cbv iota;
    [|apply guarded_quiet; reflexivity].
  apply guarded_app; [apply guarded_quiet; reflexivity|].
  apply guarded_analyze_end.
Qed.

Lemma guarded_calls (Q : JSON -> Prop) (supported : bool)
    (events : list RecEvent) :
  forall prev, guarded Q prev (fst (recognizeSpeech supported events)).
Proof.
  intros prev; apply guarded_quiet.
  destruct (recognizeSpeech_calls supported events) as [-> | ->]; reflexivity.
Qed.

Lemma guarded_record_app (env : Env) word ipa gum events gen :
  forall prev,
    guarded (answerOf gen) prev
      (AppTsx.handleRecord env word ipa gum events gen).
Proof.
  intros prev; unfold AppTsx.handleRecord.
  destruct (mediaDevices env); [|apply guarded_quiet; reflexivity].
  destruct (SpeechRecognition env); [|apply guarded_quiet; reflexivity].
  simpl negb; cbv iota.
  apply guarded_app; [apply guarded_quiet; reflexivity|].
  intros prev'; split; [exact I|].
  destruct gum as [| |err]; [exact I| |apply guarded_quiet; reflexivity].
  pose proof (guarded_calls (answerOf gen) true events) as Hc.
  destruct (recognizeSpeech true events) as [calls p]; simpl in Hc.
  apply guarded_app; [apply Hc|]; intros prev''.
  destruct p as [|t|reason]; try (apply guarded_quiet; reflexivity).
  destruct (blank t); [apply guarded_quiet; reflexivity|].
  apply guarded_analyze.
Qed.

Lemma guarded_record_index (env : Env) word ipa events gen :
  forall prev,
    guarded (answerOf gen) prev
      (IndexTsx.handleRecord env word ipa events gen).
Proof.
  intros prev; unfold IndexTsx.handleRecord.
  apply guarded_app; [apply guarded_quiet; reflexivity|]; intros prev'.
  pose proof (guarded_calls (answerOf gen) (SpeechRecognition env) events)
    as Hc.
  destruct (recognizeSpeech (SpeechRecognition env) events) as [calls p];
    simpl in Hc.
  apply guarded_app; [apply Hc|]; intros prev''.
  destruct p as [|t|reason]; try (apply guarded_quiet; reflexivity).
  apply guarded_analyze.
Qed.

(** The named turns are the blocks of the event loop. *)
Lemma block_turn (env : Env) (s : Store) (acts : list Action) :
  block env s acts <->
  exists t, turnEnabled env t = true /\ acts = turnActions s t.
Proof.
  split.
  - intros B; destruct B.
    + exists TurnNext; auto.
    + exists TurnNoMedia; simpl; rewrite H; auto.
    + exists TurnNoRecognition; simpl; rewrite H; auto.
    + exists (TurnBegin word); auto.
    + exists TurnMedia; auto.
    + exists TurnStart; auto.
    + exists (TurnCatch err); auto.
    + exists (TurnCatchIndex err); auto.
    + exists TurnBlank; auto.
    + exists TurnNoKey; simpl; rewrite H; auto.
    + exists (TurnAnalyze w i t); auto.
    + exists (TurnAnswer gen); auto.
  - intros (t & He & ->); destruct t; simpl in *; try constructor;
      try (apply negb_true_iff; exact He); exact He.
Qed.

Lemma play_app (a b : list Turn) :
  forall s, play (a ++ b) s = play b (play a s).
Proof. induction a as [|t a IH]; intros s; simpl; auto. Qed.

Lemma reachable_play (env : Env) (s : Store) :
  reachable env s <->
  exists turns,
    forallb (turnEnabled env) turns = true /\ s = play turns initialStore.
Proof.
  split.
  - induction 1 as [|s s' _ (turns & He & Es) St].
    + exists []; split; reflexivity.
    + destruct St as [s acts B].
      apply block_turn in B as (t & Ht & ->).
      exists (turns ++ [t]); split.
      * rewrite forallb_app, He; simpl; rewrite Ht; reflexivity.
      * rewrite play_app, <- Es; reflexivity.
  - intros (turns & He & ->).
    assert (G : forall s0, reachable env s0 -> reachable env (play turns s0)).
    { induction turns as [|t turns IH]; intros s0 R; [exact R|].
      simpl in He; apply andb_true_iff in He as [Ht He].
      simpl; apply (IH He).
      apply (reach_step env s0 _ R), step_block, block_turn; eauto. }
    apply G, reach_init.
Qed.

(** One turn keeps: in the result status the feedback is what the response
    of the last turn that wrote the status parsed to. *)
Lemma turn_result (s : Store) (last : option Turn) (t : Turn) :
  (status s = result ->
   exists text, last = Some (TurnAnswer (GenText text))
                /\ JSON_parse (stripFence text) = Some (feedback s)) ->
  status (run (turnActions s t) s) = result ->
  exists text,
    (if existsb setsStatus (turnActions s t) then Some t else last)
    = Some (TurnAnswer (GenText text))
    /\ JSON_parse (stripFence text)
       = Some (feedback (run (turnActions s t) s)).
Proof.
  intros Inv; destruct t; try (simpl; discriminate); try exact Inv.
  destruct gen as [| |text]; [exact Inv | simpl; discriminate|].
  simpl; destruct (JSON_parse (stripFence text)) as [v|] eqn:E; simpl;
    [|discriminate].
  intros _; exists text; auto.
Qed.

Lemma play_result (turns : list Turn) :
  forall s last,
    (status s = result ->
     exists text, last = Some (TurnAnswer (GenText text))
                  /\ JSON_parse (stripFence text) = Some (feedback s)) ->
    status (play turns s) = result ->
    exists text,
      lastStatusTurn turns s last = Some (TurnAnswer (GenText text))
      /\ JSON_parse (stripFence text) = Some (feedback (play turns s)).
Proof.
  induction turns as [|t turns IH]; intros s last Inv; [exact Inv|].
  simpl; apply IH; apply turn_result; exact Inv.
Qed.

(** C7 (amended): the session view-state is always one of idle, recording,
    analyzing and result, and every operation moves the status among these
    four only.  Every transition to result is immediately preceded by
    storing, as the feedback, the value that the response of this very
    analysis parsed to, and [handleNextItem] never moves to result.  So
    after any history of the widget's handlers, interleaved in any way, the
    status is result only when the last block that wrote the status is the
    arrival of a response and the feedback is the value that response
    parsed to.  That value is not checked: it is null when the response is
    the JSON literal null. *)
Theorem C7_result_holds_parsed_response (env : Env) :
  (forall st : Status,
      st = idle \/ st = recording \/ st = analyzing \/ st = result)
  /\ (forall w i t gen prev,
        guarded (answerOf gen) prev (analyzePronunciation env w i t gen))
  /\ (forall word ipa gum events gen prev,
        guarded (answerOf gen) prev
          (AppTsx.handleRecord env word ipa gum events gen))
  /\ (forall word ipa events gen prev,
        guarded (answerOf gen) prev
          (IndexTsx.handleRecord env word ipa events gen))
  /\ (forall s, count isResult (handleNextItem s) = 0%nat)
  /\ (forall s,
        reachable env s <->
        exists turns,
          forallb (turnEnabled env) turns = true
          /\ s = play turns initialStore)
  /\ (forall turns,
        status (play turns initialStore) = result ->
        exists text,
          lastStatusTurn turns initialStore None
          = Some (TurnAnswer (GenText text))
          /\ JSON_parse (stripFence text)
             = Some (feedback (play turns initialStore))).
Proof.
  split; [intros []; auto|].
  split; [intros; apply guarded_analyze|].
  split; [intros; apply guarded_record_app|].
  split; [intros; apply guarded_record_index|].
  split; [reflexivity|].
  split; [apply reachable_play|].
  intros turns; apply play_result; discriminate.
Qed.

End Feedback.

(** C1, as stated, fails: nothing checks the fields of the parsed value.
    A response holding an object with the single member [isCorrect] is
    stored as the feedback result and the widget moves to result. *)
Lemma C1_counterexample :
  let text := js "{" ++ quote ++ js "isCorrect" ++ quote ++ js ": true}" in
  let final :=
    run (@analyzePronunciation referencePlatform sampleEnv (js "sea")
           (js "/si" ++ [720] ++ js "/") (js "see") (GenText text))
        initialStore in
  status final = result
  /\ feedback final = JObject [(js "isCorrect", JBool true)]
  /\ isFeedback (feedback final) = false.
Proof. vm_compute; repeat split. Qed.

(** C7, as stated, fails: the response [null] parses, so the feedback that
    is stored right before the transition to result is null. *)
Lemma C7_counterexample :
  let acts :=
    @analyzePronunciation referencePlatform sampleEnv (js "sea")
      (js "/si" ++ [720] ++ js "/") (js "see") (GenText (js "null")) in
  In (setStatus result) acts
  /\ status (run acts initialStore) = result
  /\ feedback (run acts initialStore) = JNull
  /\ count isProduced acts = 0%nat.
Proof. vm_compute; repeat split; auto 10. Qed.

(** ** The backend handler *)

Lemma firstTranscripts_all (results : list Backend.SpeechResult) :
  (forall r, In r results -> Backend.alternatives r <> []) ->
  Backend.firstTranscripts results = Some (map firstOf results).
Proof.
  induction results as [|r results IH]; intros H; simpl; [reflexivity|].
  unfold firstOf at 1.
  destruct (Backend.alternatives r) as [|a alts] eqn:E.
  - exfalso; apply (H r); [left; reflexivity | exact E].
  - rewrite IH; [reflexivity|].
    intros r' Hin; apply H; right; exact Hin.
Qed.

Lemma firstTranscripts_none (results : list Backend.SpeechResult) :
  (exists r, In r results /\ Backend.alternatives r = []) ->
  Backend.firstTranscripts results = None.
Proof.
  induction results as [|r results IH]; intros (r0 & Hin & E); simpl.
  - destruct Hin.
  - destruct Hin as [->|Hin]; [rewrite E; reflexivity|].
    destruct (Backend.alternatives r); [reflexivity|].
    rewrite IH; [reflexivity | eauto].
Qed.

(** C10: a POST request that has no body.  The handler reads
    [req.body.audio] inside its [try] block; on a request without a body
    the read throws, the catch-all answers 500 and no service is called.
    Such a request has no audio field, for which the handler otherwise
    answers 400, as it does for a POST whose body has no [audio] member. *)
Theorem C10_bodiless_post_answers_500
    (recognize : Backend.RecognizeRequest -> Backend.RecognizeOutcome) :
  Backend.handler recognize (post None)
  = ([], {| Backend.statusCode := 500;
            Backend.payload := Backend.send (js "Internal Server Error") |})
  /\ Backend.handler recognize (post (Some {| Backend.audio := None |}))
     = ([], {| Backend.statusCode := 400;
               Backend.payload :=
                 Backend.send (js "Bad Request: Missing audio data.") |}).
Proof. split; reflexivity. Qed.

(** ** The theorems at sample inputs *)

Lemma C1_witness :
  ai sampleEnv = true
  /\ stripFence sampleFenced = sampleObject
  /\ (let final :=
        run (@analyzePronunciation referencePlatform sampleEnv (js "sea")
               (js "/si" ++ [720] ++ js "/") (js "see") (GenText sampleFenced))
            initialStore in
      feedback final = sampleFeedback /\ status final = result
      /\ error final = []).
Proof.
  split; [reflexivity|].
  destruct (@C1_feedback_is_parsed_response referencePlatform sampleEnv
              (js "sea") (js "/si" ++ [720] ++ js "/") (js "see")
              sampleFenced initialStore eq_refl)
    as (Hfence & _ & Hstore & _).
  assert (E : stripFence sampleFenced = sampleObject).
  { rewrite (Hfence (js "json") (newline ++ sampleObject ++ newline));
      [reflexivity | left; reflexivity | reflexivity]. }
  split; [exact E|].
  apply Hstore; rewrite E; reflexivity.
Defined.

Lemma C2_witness :
  recognizeSpeech true (heard (js "see"))
  = ([recognitionStart], Fulfilled (Some (js "see")))
  /\ firstSettled (heard (js "see") ++ [onerror (js "aborted")])
     = Fulfilled (Some (js "see")).
Proof.
  destruct (@C2_recognition_adapter referencePlatform (heard (js "see")))
    as (_ & Hrun & Hfirst & _ & Honce & _).
  assert (E : firstSettled (heard (js "see")) = Fulfilled (Some (js "see"))).
  { apply (Hfirst [unhandled] [[ {| transcript := Some (js "see") |} ]]
             (Some (js "see")) [onend]);
      [|reflexivity|reflexivity].
    intros ev [<-|[]]; reflexivity. }
  split; [rewrite Hrun, E; reflexivity|].
  rewrite Honce; [exact E | rewrite E; discriminate].
Defined.


Lemma C6_witness :
  includes (prompt (js "sea") (js "/si" ++ [720] ++ js "/") (js "see"))
    (js "/si" ++ [720] ++ js "/") = true
  /\ In (generateContent modelParams
           (prompt (js "sea") (js "/si" ++ [720] ++ js "/") (js "see")))
        (@analyzePronunciation referencePlatform sampleEnv (js "sea")
           (js "/si" ++ [720] ++ js "/") (js "see") (GenText sampleFenced))
  /\ responseMimeType modelParams = js "application/json".
Proof.
  destruct (@C6_prompt_and_json_mode referencePlatform sampleEnv (js "sea")
              (js "/si" ++ [720] ++ js "/") (js "see") (GenText sampleFenced))
    as (_ & H2 & _ & Hreq & Hmade).
  split; [exact H2|].
  split; [exact (Hmade eq_refl)|].
  exact (proj2 (Hreq _ _ (Hmade eq_refl))).
Defined.

Lemma C7_witness :
  let turns :=
    [TurnBegin (js "sea"); TurnMedia; TurnStart;
     TurnAnalyze (js "sea") (js "/si" ++ [720] ++ js "/") (js "see");
     TurnNext; TurnAnswer (GenText sampleFenced); TurnStart] in
  status (@play referencePlatform turns initialStore) = result
  /\ exists text,
       @lastStatusTurn referencePlatform turns initialStore None
       = Some (TurnAnswer (GenText text))
       /\ @JSON_parse referencePlatform (stripFence text)
          = Some (feedback (@play referencePlatform turns initialStore)).
Proof.
  split; [reflexivity|].
  destruct (@C7_result_holds_parsed_response referencePlatform sampleEnv)
    as (_ & _ & _ & _ & _ & _ & Hplay).
  apply Hplay; reflexivity.
Defined.

Lemma C8_witness :
  ai sampleEnv = true
  /\ @fails referencePlatform (GenText (js "Sorry, I cannot help."))
  /\ (let acts :=
        @analyzePronunciation referencePlatform sampleEnv (js "sea")
          (js "/si" ++ [720] ++ js "/") (js "see")
          (GenText (js "Sorry, I cannot help.")) in
      feedback (run acts initialStore) = JNull
      /\ error (run acts initialStore) = noFeedback
      /\ status (run acts initialStore) = idle
      /\ currentItemIndex (run acts initialStore)
         = currentItemIndex initialStore
      /\ activeWord (run acts initialStore) = activeWord initialStore
      /\ practiceItems (run acts initialStore) = practiceItems initialStore
      /\ ~ In (setStatus result) acts
      /\ count isProduced acts = 0%nat).
Proof.
  split; [reflexivity|]; split; [reflexivity|].
  apply (@C8_failed_analysis referencePlatform sampleEnv (js "sea")
           (js "/si" ++ [720] ++ js "/") (js "see")
           (GenText (js "Sorry, I cannot help.")) initialStore);
    reflexivity.
Defined.

Lemma C9_witness :
  mediaDevices sampleEnv = true /\ SpeechRecognition sampleEnv = true
  /\ snd (recognizeSpeech true (heard (js "  "))) = Fulfilled (Some (js "  "))
  /\ allSpace (js "  ")
  /\ (let acts :=
        @AppTsx.handleRecord referencePlatform sampleEnv (js "sea")
          (js "/si" ++ [720] ++ js "/") GumStream (heard (js "  "))
          (GenText sampleFenced) in
      acts = record_begin (js "sea") ++ [getUserMedia; recognitionStart]
             ++ AppTsx.record_blank
      /\ count isRequest acts = 0%nat
      /\ error (run acts initialStore) = noSpeechHeard
      /\ status (run acts initialStore) = idle).
Proof.
  split; [reflexivity|]; split; [reflexivity|]; split; [reflexivity|].
  split; [reflexivity|].
  apply (@C9_blank_transcript_skips_analysis referencePlatform sampleEnv
           (js "sea") (js "/si" ++ [720] ++ js "/") (heard (js "  "))
           (GenText sampleFenced) (Some (js "  ")) initialStore);
    try reflexivity.
  right; exists (js "  "); split; reflexivity.
Defined.



(* ------------------------------------------------------------------ *)
(** * Further properties of the code *)

(** ** The unwrapping step *)

Lemma stripPrefix_inv (p s rest : jsstring) :
  stripPrefix p s = Some rest -> s = p ++ rest.
Proof.
  revert s; induction p as [|x p IH]; intros s; simpl.
  - intros E; injection E; auto.
  - destruct s as [|y s]; [discriminate|].
    destruct (x =? y) eqn:E; [|discriminate].
    apply N.eqb_eq in E; subst y.
    intros H; rewrite (IH _ H); reflexivity.
Qed.

Lemma str_match_wrapped (text : jsstring) (cap : captures) :
  str_match text fenceRegex = Some cap ->
  exists mid, text = backticks ++ mid ++ backticks.
Proof.
  unfold str_match; rewrite search_unfold.
  destruct (rmatch fenceRegex accept [] text None) eqn:G.
  - intros _; apply rmatch_sound in G as (w & suf' & cap' & -> & L & _).
    apply lang_fenceRegex in L as (-> & mid & ->).
    exists mid; apply app_nil_r.
  - destruct text; [discriminate|].
    rewrite fenceRegex_parts, search_Bol; discriminate.
Qed.

Lemma wrapped_tag (mid : jsstring) :
  exists tag inner, fenceTag tag inner /\ mid = tag ++ inner.
Proof.
  destruct (stripPrefix (js "json") mid) as [inner|] eqn:J.
  - exists (js "json"), inner; split;
      [left; reflexivity | apply stripPrefix_inv; exact J].
  - exists [], mid; split; [right; split; [reflexivity|] | reflexivity].
    unfold startsWith; rewrite J; reflexivity.
Qed.

Lemma tight_nonempty (body : jsstring) : tight body -> body <> [].
Proof. intros [(c & rest & -> & _) _]; discriminate. Qed.

(** Every text is either left as it is or is a fence whose trimmed inside
    is returned. *)
Lemma stripFence_cases (text : jsstring) :
  stripFence text = text \/
  exists tag inner,
    fenceTag tag inner /\ text = backticks ++ tag ++ inner ++ backticks
    /\ tight (trim inner) /\ stripFence text = trim inner.
Proof.
  destruct (str_match text fenceRegex) as [cap|] eqn:M.
  - destruct (str_match_wrapped _ _ M) as (mid & ->).
    destruct (wrapped_tag mid) as (tag & inner & Htag & ->).
    rewrite <- app_assoc.
    destruct (trim_split inner) as (_ & _ & _ & _ & _ & [E|Ht]).
    + left; apply stripFence_blank; assumption.
    + right; exists tag, inner; split; [exact Htag|].
      split; [reflexivity|]; split; [exact Ht|].
      apply stripFence_fenced; [exact Htag | apply tight_nonempty, Ht].
  - left; unfold stripFence; rewrite M; reflexivity.
Qed.

Lemma trim_length (s : jsstring) :
  (List.length (trim s) <= List.length s)%nat.
Proof.
  destruct (trim_split s) as (ws1 & ws2 & _ & _ & E & _).
  rewrite E at 2; rewrite !length_app; lia.
Qed.

(** X1: the unwrapping step of [analyzePronunciation] either returns the
    response unchanged or, for a response wrapped in triple backticks,
    returns a text with no white space at either end; its result is never
    longer than the response and is never empty unless the response is. *)
Theorem X1_unwrapping_never_empties (text : jsstring) :
  (stripFence text = text
   \/ ((exists mid, text = backticks ++ mid ++ backticks)
       /\ tight (stripFence text)))
  /\ (List.length (stripFence text) <= List.length text)%nat
  /\ (stripFence text = [] -> text = []).
Proof.
  destruct (stripFence_cases text)
    as [E|(tag & inner & _ & Ht & Htight & E)].
  - rewrite E; repeat split; auto.
  - rewrite E; split; [right; split; [|exact Htight]|split].
    + exists (tag ++ inner); rewrite <- app_assoc; exact Ht.
    + pose proof (trim_length inner); rewrite Ht, !length_app; lia.
    + intros F; destruct (tight_nonempty _ Htight F).
Qed.

Lemma last_not_space (text ws mid : jsstring) :
  ws <> [] -> allSpace ws -> text ++ ws <> backticks ++ mid ++ backticks.
Proof.
  intros Hne Hws E; destruct (exists_last Hne) as (ws' & d & ->).
  apply allSpace_app in Hws as [_ Hd].
  change backticks with ([96; 96] ++ [96]) in E at 2.
  rewrite !app_assoc in E; apply app_inj_tail in E as [_ ->].
  discriminate.
Qed.

(** X2: the fence is only recognised when the response starts and ends
    with the backticks: white space before the opening fence or after the
    closing one (a final newline, say) leaves the response as it is. *)
Theorem X2_space_outside_fence_defeats_unwrapping (text ws : jsstring) :
  ws <> [] -> allSpace ws ->
  stripFence (text ++ ws) = text ++ ws
  /\ stripFence (ws ++ text) = ws ++ text.
Proof.
  intros Hne Hws; split; apply stripFence_unfenced; intros mid E.
  - exact (last_not_space _ _ _ Hne Hws E).
  - destruct ws as [|c ws]; [contradiction|].
    unfold allSpace in Hws; simpl in Hws, E.
    injection E as -> _; discriminate.
Qed.

Lemma X2_witness :
  [10] <> [] /\ allSpace [10]
  /\ stripFence (sampleFenced ++ [10]) = sampleFenced ++ [10]
  /\ stripFence ([10] ++ sampleFenced) = [10] ++ sampleFenced.
Proof.
  split; [discriminate|]; split; [reflexivity|].
  apply (X2_space_outside_fence_defeats_unwrapping sampleFenced [10]);
    [discriminate | reflexivity].
Defined.

(** ** The backend handler, as a whole *)

Lemma firstTranscripts_heads (ra rb : list Backend.SpeechResult) :
  heads ra = heads rb ->
  Backend.firstTranscripts ra = Backend.firstTranscripts rb.
Proof.
  revert rb; induction ra as [|a ra IH]; intros [|b rb]; simpl;
    try discriminate; [reflexivity|].
  intros E; injection E as Eh Et; rewrite (IH _ Et).
  destruct (Backend.alternatives a), (Backend.alternatives b);
    try discriminate; [reflexivity|].
  injection Eh as ->; reflexivity.
Qed.

(** X3: for every request and every behaviour of the transcription
    service, the handler calls the service at most once, never with empty
    audio, always with the fixed recognition configuration and with the
    audio of the request unchanged; its status is one of 200, 400, 405 and
    500; it answers 200 only after a call, and 400 or 405 only without
    one. *)
Theorem X3_handler_calls_at_most_once
    (recognize : Backend.RecognizeRequest -> Backend.RecognizeOutcome)
    (req : Backend.Request) :
  let calls := fst (Backend.handler recognize req) in
  let code := Backend.statusCode (snd (Backend.handler recognize req)) in
  (List.length calls <= 1)%nat
  /\ (forall r, In r calls ->
        Backend.content r <> []
        /\ Backend.config r = Backend.recognitionConfig
        /\ Backend.body req
           = Some {| Backend.audio := Some (Backend.content r) |})
  /\ (code = 200 \/ code = 400 \/ code = 405 \/ code = 500)%Z
  /\ (code = 200%Z -> List.length calls = 1%nat)
  /\ (code = 400%Z \/ code = 405%Z -> calls = []).
Proof.
  intros calls code; subst calls code; unfold Backend.handler.
  assert (Hquiet : forall resp : Backend.Response,
             Backend.statusCode resp <> 200%Z ->
             (Backend.statusCode resp = 200 \/ Backend.statusCode resp = 400
              \/ Backend.statusCode resp = 405
              \/ Backend.statusCode resp = 500)%Z ->
             (List.length (@nil Backend.RecognizeRequest) <= 1)%nat
             /\ (forall r, In r (@nil Backend.RecognizeRequest) ->
                   Backend.content r <> []
                   /\ Backend.config r = Backend.recognitionConfig
                   /\ Backend.body req
                      = Some {| Backend.audio := Some (Backend.content r) |})
             /\ (Backend.statusCode resp = 200 \/ Backend.statusCode resp = 400
                 \/ Backend.statusCode resp = 405
                 \/ Backend.statusCode resp = 500)%Z
             /\ (Backend.statusCode resp = 200%Z ->
                 List.length (@nil Backend.RecognizeRequest) = 1%nat)
             /\ (Backend.statusCode resp = 400%Z
                 \/ Backend.statusCode resp = 405%Z ->
                 @nil Backend.RecognizeRequest = [])).
  { intros resp H200 Hcode; split; [simpl; lia|]; split; [intros r []|].
    split; [exact Hcode|]; split; [intros F; contradiction | reflexivity]. }
  destruct (str_eqb (Backend.method req) (js "POST")); simpl negb; cbv iota;
    [|apply Hquiet; simpl; [discriminate | auto]].
  destruct (Backend.body req) as [[[[|c rest]|]]|] eqn:Hb;
    try (apply Hquiet; simpl; [discriminate | auto]).
  cbn [Backend.audio].
  set (request := {| Backend.content := c :: rest;
                     Backend.config := Backend.recognitionConfig |}).
  assert (Hin : forall r, In r [request] ->
             Backend.content r <> []
             /\ Backend.config r = Backend.recognitionConfig
             /\ Some {| Backend.audio := Some (c :: rest) |}
                = Some {| Backend.audio := Some (Backend.content r) |}).
  { intros r [<-|[]]; subst request; simpl; repeat split; discriminate. }
  destruct (recognize request) as [|results];
    [|destruct (Backend.firstTranscripts results)];
    cbn [fst snd Backend.statusCode Backend.internalError List.length];
    (split; [lia|]); (split; [exact Hin|]); (split; [auto|]);
    (split; [reflexivity|]); intros [F|F]; discriminate F.
Qed.

(** X4: the handler reads nothing of the service's response but the first
    alternative of each result: two services whose outcomes agree on those
    give the same calls and the same response; and a response without any
    result is answered 200 with an empty transcription. *)
Theorem X4_only_first_alternatives_count
    (recognize recognize' : Backend.RecognizeRequest
                            -> Backend.RecognizeOutcome)
    (req : Backend.Request) :
  (forall r, sameHeads (recognize r) (recognize' r)) ->
  Backend.handler recognize req = Backend.handler recognize' req
  /\ (forall audio,
        audio <> [] ->
        (forall r, recognize r = Backend.RecognizeResponse []) ->
        snd (Backend.handler recognize
               (post (Some {| Backend.audio := Some audio |})))
        = {| Backend.statusCode := 200;
             Backend.payload := Backend.json [] |}).
Proof.
  intros Hsame; split.
  - unfold Backend.handler.
    destruct (str_eqb (Backend.method req) (js "POST")); simpl;
      [|reflexivity].
    destruct (Backend.body req) as [[[[|c rest]|]]|]; simpl;
      try reflexivity.
    specialize (Hsame {| Backend.content := c :: rest;
                         Backend.config := Backend.recognitionConfig |}).
    destruct (recognize _) as [|ra], (recognize' _) as [|rb];
      simpl in Hsame; try contradiction; [reflexivity|].
    rewrite (firstTranscripts_heads _ _ Hsame); reflexivity.
  - intros audio Hne Hempty; destruct audio as [|c rest]; [contradiction|].
    unfold Backend.handler, post; simpl; rewrite Hempty; reflexivity.
Qed.

Lemma X4_witness :
  (forall r,
      sameHeads (sampleRecognize r)
        (Backend.RecognizeResponse
           [ {| Backend.alternatives :=
                  [ {| Backend.transcript := js "she sells" |} ] |};
             {| Backend.alternatives :=
                  [ {| Backend.transcript := js "seashells" |};
                    {| Backend.transcript := js "sea shells" |} ] |} ]))
  /\ Backend.handler sampleRecognize
       (post (Some {| Backend.audio := Some (js "QUJD") |}))
     = Backend.handler
         (fun _ =>
            Backend.RecognizeResponse
              [ {| Backend.alternatives :=
                     [ {| Backend.transcript := js "she sells" |} ] |};
                {| Backend.alternatives :=
                     [ {| Backend.transcript := js "seashells" |};
                       {| Backend.transcript := js "sea shells" |} ] |} ])
         (post (Some {| Backend.audio := Some (js "QUJD") |})).
Proof.
  assert (H : forall r,
             sameHeads (sampleRecognize r)
               (Backend.RecognizeResponse
                  [ {| Backend.alternatives :=
                         [ {| Backend.transcript := js "she sells" |} ] |};
                    {| Backend.alternatives :=
                         [ {| Backend.transcript := js "seashells" |};
                           {| Backend.transcript := js "sea shells" |} ] |} ]))
    by (intros r; reflexivity).
  split; [exact H|].
  exact (proj1 (X4_only_first_alternatives_count sampleRecognize _
                  (post (Some {| Backend.audio := Some (js "QUJD") |})) H)).
Defined.

(** ** The handlers, path by path *)

Section Paths.

Context `{P : Platform}.

Lemma recognizeSpeech_first (events : list RecEvent) :
  recognizeSpeech true events = ([recognitionStart], firstSettled events)
  /\ recognizeSpeech false events = ([], Rejected notSupported).
Proof.
  unfold recognizeSpeech; simpl; rewrite dispatch_first; split; reflexivity.
Qed.

Lemma analyze_locked (env : Env) (w i t : jsstring) (gen : GenOutcome)
    (s : Store) :
  isAnalyzingOrRecording (run (analyzePronunciation env w i t gen) s) = true
  <-> ai env = true /\ gen = GenPending.
Proof.
  unfold analyzePronunciation; destruct (ai env); simpl negb; cbv iota;
    [|simpl; split; [discriminate | intros [F _]; discriminate]].
  rewrite run_app; unfold analyze_end.
  destruct gen as [| |text]; [simpl; split; auto| |].
  - simpl; split; [discriminate | intros [_ F]; discriminate].
  - destruct (JSON_parse (stripFence text)); simpl;
      (split; [discriminate | intros [_ F]; discriminate]).
Qed.

Lemma analyze_keeps_word (env : Env) (w i t : jsstring) (gen : GenOutcome)
    (s : Store) :
  activeWord (run (analyzePronunciation env w i t gen) s) = activeWord s.
Proof.
  unfold analyzePronunciation, analyze_end.
  destruct (ai env); simpl negb; cbv iota; [|reflexivity].
  destruct gen as [| |text]; try reflexivity.
  destruct (JSON_parse (stripFence text)); reflexivity.
Qed.

Lemma app_locked (env : Env) (word ipa : jsstring) (gum : GumOutcome)
    (events : list RecEvent) (gen : GenOutcome) (s : Store) :
  (isAnalyzingOrRecording
     (run (AppTsx.handleRecord env word ipa gum events gen) s) = true <->
   mediaDevices env = true /\ SpeechRecognition env = true
   /\ (gum = GumPending
       \/ gum = GumStream
          /\ (firstSettled events = Pending
              \/ exists t, firstSettled events = Fulfilled t
                           /\ blank t = false /\ ai env = true
                           /\ gen = GenPending)))
  /\ (isAnalyzingOrRecording
        (run (AppTsx.handleRecord env word ipa gum events gen) s) = true ->
      activeWord (run (AppTsx.handleRecord env word ipa gum events gen) s)
      = Some word).
Proof.
  unfold AppTsx.handleRecord.
  destruct (recognizeSpeech_first events) as [Ht _].
  destruct (mediaDevices env);
    [|simpl; split; [split; [discriminate | intros (F & _); discriminate]
                    | discriminate]].
  destruct (SpeechRecognition env);
    [|simpl; split;
      [split; [discriminate | intros (_ & F & _); discriminate]
      | discriminate]].
  simpl negb; cbv iota.
  destruct gum as [| |err].
  - simpl; split; [split; auto|reflexivity].
  - rewrite Ht; destruct (firstSettled events) as [|t|reason].
    + simpl; split; [split; auto 6|reflexivity].
    + destruct (blank t) eqn:Hb.
      * simpl; split; [split; [discriminate|]|discriminate].
        intros (_ & _ & [F|(_ & [F|(t' & E & Hb' & _)])]);
          try discriminate.
        injection E as <-; rewrite Hb in Hb'; discriminate.
      * rewrite run_app, run_cons, run_app.
        split; [rewrite analyze_locked; split|].
        -- intros [Hai ->]; repeat split; right; split; [reflexivity|].
           right; exists t; auto.
        -- intros (_ & _ & [F|(_ & [F|(t' & E & _ & Hai & Hg)])]);
             try discriminate; auto.
        -- intros _; rewrite analyze_keeps_word; reflexivity.
    + simpl; split; [split; [discriminate|]|discriminate].
      intros (_ & _ & [F|(_ & [F|(t' & F & _)])]); discriminate.
  - rewrite run_app; simpl; split; [split; [discriminate|]|discriminate].
    intros (_ & _ & [F|(F & _)]); discriminate.
Qed.

Lemma index_locked (env : Env) (word ipa : jsstring)
    (events : list RecEvent) (gen : GenOutcome) (s : Store) :
  (isAnalyzingOrRecording
     (run (IndexTsx.handleRecord env word ipa events gen) s) = true <->
   SpeechRecognition env = true
   /\ (firstSettled events = Pending
       \/ exists t, firstSettled events = Fulfilled t
                    /\ ai env = true /\ gen = GenPending))
  /\ (isAnalyzingOrRecording
        (run (IndexTsx.handleRecord env word ipa events gen) s) = true ->
      activeWord (run (IndexTsx.handleRecord env word ipa events gen) s)
      = Some word).
Proof.
  unfold IndexTsx.handleRecord.
  destruct (recognizeSpeech_first events) as [Ht Hf].
  destruct (SpeechRecognition env).
  - rewrite Ht; destruct (firstSettled events) as [|t|reason].
    + simpl; split; [split; auto|reflexivity].
    + rewrite run_app, run_app.
      split; [rewrite analyze_locked; split|].
      * intros [Hai ->]; split; [reflexivity|]; right; exists t; auto.
      * intros (_ & [F|(t' & _ & Hai & Hg)]); [discriminate | auto].
      * intros _; rewrite analyze_keeps_word; reflexivity.
    + simpl; split; [split; [discriminate|]|discriminate].
      intros (_ & [F|(t' & F & _)]); discriminate.
  - rewrite Hf; simpl.
    split; [split; [discriminate | intros (F & _); discriminate]
           | discriminate].
Qed.

(** X5: a recording attempt leaves the record buttons disabled
    ([isAnalyzingOrRecording]) exactly when one of the promises it awaits
    never settles.  In src/App.tsx, on a supported browser: the microphone
    request, the recognition promise, or, after a transcript that is not
    blank and with an API key, the request to the model.  In index.tsx,
    with recognition supported: the recognition promise or, with an API
    key, the request to the model.  The word of the attempt is then still
    the active word; on every other path the attempt ends in idle or
    result. *)
Theorem X5_buttons_stay_disabled_iff_pending (env : Env)
    (word ipa : jsstring) (gum : GumOutcome) (events : list RecEvent)
    (gen : GenOutcome) (s : Store) :
  let final := run (AppTsx.handleRecord env word ipa gum events gen) s in
  let final' := run (IndexTsx.handleRecord env word ipa events gen) s in
  (isAnalyzingOrRecording final = true <->
   mediaDevices env = true /\ SpeechRecognition env = true
   /\ (gum = GumPending
       \/ gum = GumStream
          /\ (firstSettled events = Pending
              \/ exists t, firstSettled events = Fulfilled t
                           /\ blank t = false /\ ai env = true
                           /\ gen = GenPending)))
  /\ (isAnalyzingOrRecording final = true -> activeWord final = Some word)
  /\ (isAnalyzingOrRecording final' = true <->
      SpeechRecognition env = true
      /\ (firstSettled events = Pending
          \/ exists t, firstSettled events = Fulfilled t
                       /\ ai env = true /\ gen = GenPending))
  /\ (isAnalyzingOrRecording final' = true -> activeWord final' = Some word).
Proof.
  intros final final'; subst final final'.
  destruct (app_locked env word ipa gum events gen s) as [H1 H2].
  destruct (index_locked env word ipa events gen s) as [H3 H4].
  split; [exact H1|]; split; [exact H2|]; split; [exact H3 | exact H4].
Qed.

(** X6: on a browser without microphone access or without speech
    recognition, [handleRecord] of src/App.tsx returns at once: it calls
    neither the microphone, the recognizer nor the model, shows the
    matching message (the missing microphone access first) and sets the
    status to idle; the active word, the stored feedback and the item
    index stay as they were. *)
Theorem X6_unsupported_browser_returns_early (env : Env)
    (word ipa : jsstring) (gum : GumOutcome) (events : list RecEvent)
    (gen : GenOutcome) (s : Store) :
  mediaDevices env = false \/ SpeechRecognition env = false ->
  let acts := AppTsx.handleRecord env word ipa gum events gen in
  count isExternal acts = 0%nat
  /\ status (run acts s) = idle
  /\ error (run acts s)
     = (if mediaDevices env then noRecognition else noMicrophoneAccess)
  /\ activeWord (run acts s) = activeWord s
  /\ feedback (run acts s) = feedback s
  /\ currentItemIndex (run acts s) = currentItemIndex s.
Proof.
  intros H acts; subst acts; unfold AppTsx.handleRecord.
  destruct (mediaDevices env); [|repeat split].
  destruct H as [H|H]; [discriminate|]; rewrite H; repeat split.
Qed.

Lemma count_request_nokey (env : Env) (w i t : jsstring) (gen : GenOutcome) :
  ai env = false ->
  count isRequest (analyzePronunciation env w i t gen) = 0%nat.
Proof.
  intros H; unfold analyzePronunciation; rewrite H; reflexivity.
Qed.

(** X7: without an API key no request is ever sent to the model, by
    either [handleRecord]; [analyzePronunciation] shows that the key is not
    configured, sets the status to idle and leaves the stored feedback as
    it is.  The key is only looked at after the recording: with a
    supported browser and a transcript that is not blank, [handleRecord]
    of src/App.tsx still asks for the microphone and starts recognition,
    and ends idle with that message, the word active and no feedback. *)
Theorem X7_without_api_key_nothing_is_sent (env : Env) (word ipa : jsstring)
    (gum : GumOutcome) (events : list RecEvent) (gen : GenOutcome)
    (s : Store) :
  ai env = false ->
  count isRequest (AppTsx.handleRecord env word ipa gum events gen) = 0%nat
  /\ count isRequest (IndexTsx.handleRecord env word ipa events gen) = 0%nat
  /\ (forall w i t,
        feedback (run (analyzePronunciation env w i t gen) s) = feedback s
        /\ status (run (analyzePronunciation env w i t gen) s) = idle
        /\ error (run (analyzePronunciation env w i t gen) s) = noApiKey)
  /\ (forall t,
        mediaDevices env = true -> SpeechRecognition env = true ->
        firstSettled events = Fulfilled t -> blank t = false ->
        let acts := AppTsx.handleRecord env word ipa GumStream events gen in
        In getUserMedia acts /\ In recognitionStart acts
        /\ error (run acts s) = noApiKey /\ status (run acts s) = idle
        /\ feedback (run acts s) = JNull
        /\ activeWord (run acts s) = Some word).
Proof.
  intros Hai.
  destruct (recognizeSpeech_first events) as [Ht Hf].
  split; [|split; [|split]].
  - unfold AppTsx.handleRecord.
    destruct (mediaDevices env); [|reflexivity].
    destruct (SpeechRecognition env); [|reflexivity].
    simpl negb; cbv iota; destruct gum as [| |err]; [reflexivity| |reflexivity].
    rewrite Ht; destruct (firstSettled events) as [|t|reason];
      try reflexivity.
    destruct (blank t); [reflexivity|].
    rewrite count_app; change (getUserMedia :: ?l) with ([getUserMedia] ++ l).
    rewrite !count_app, (count_request_nokey _ _ _ _ _ Hai); reflexivity.
  - unfold IndexTsx.handleRecord.
    destruct (SpeechRecognition env); [rewrite Ht | rewrite Hf; reflexivity].
    destruct (firstSettled events) as [|t|reason]; try reflexivity.
    rewrite !count_app, (count_request_nokey _ _ _ _ _ Hai); reflexivity.
  - intros w i t; unfold analyzePronunciation; rewrite Hai; repeat split.
  - intros t Hm Hs Hp Hb acts; subst acts; unfold AppTsx.handleRecord.
    rewrite Hm, Hs; simpl negb; cbv iota.
    rewrite Ht, Hp, Hb; unfold analyzePronunciation; rewrite Hai.
    simpl; repeat split; auto 8.
Qed.

(** X8: a recording attempt of src/App.tsx in which everything succeeds
    (supported browser, microphone granted, a transcript that is not
    blank, an API key, a response that parses) does exactly this, in
    order: it marks the word active and recording, asks for the
    microphone, starts recognition, moves to analyzing, sends one request
    with the prompt of the word, its IPA and the transcript, stores the
    parsed value and moves to result.  The item index is untouched and the
    error is empty. *)
Theorem X8_successful_attempt (env : Env) (word ipa t text : jsstring)
    (events : list RecEvent) (v : JSON) (s : Store) :
  mediaDevices env = true -> SpeechRecognition env = true ->
  ai env = true ->
  firstSettled events = Fulfilled (Some t) -> blank (Some t) = false ->
  JSON_parse (stripFence text) = Some v ->
  let acts :=
    AppTsx.handleRecord env word ipa GumStream events (GenText text) in
  acts = [setActiveWord (Some word); setStatus recording; setError [];
          setFeedback JNull; getUserMedia; recognitionStart;
          setStatus analyzing; setError []; setFeedback JNull;
          generateContent modelParams (prompt word ipa t);
          setFeedback v; setStatus result]
  /\ run acts s
     = {| practiceItems := practiceItems s;
          currentItemIndex := currentItemIndex s;
          status := result; activeWord := Some word;
          feedback := v; error := [] |}.
Proof.
  intros Hm Hs Hai Hp Hb Hv acts.
  assert (E : acts
              = [setActiveWord (Some word); setStatus recording; setError [];
                 setFeedback JNull; getUserMedia; recognitionStart;
                 setStatus analyzing; setError []; setFeedback JNull;
                 generateContent modelParams (prompt word ipa t);
                 setFeedback v; setStatus result]).
  { subst acts; unfold AppTsx.handleRecord.
    rewrite Hm, Hs; simpl negb; cbv iota.
    rewrite (proj1 (recognizeSpeech_first events)), Hp, Hb.
    unfold analyzePronunciation, analyze_end; rewrite Hai, Hv; reflexivity. }
  rewrite E; split; reflexivity.
Qed.

Lemma filter_media_analyze (env : Env) (w i t : jsstring) (gen : GenOutcome) :
  filter (fun a => negb (isMedia a)) (analyzePronunciation env w i t gen)
  = analyzePronunciation env w i t gen.
Proof.
  unfold analyzePronunciation, analyze_end.
  destruct (ai env); simpl negb; cbv iota; [|reflexivity].
  destruct gen as [| |text]; [reflexivity..|].
  destruct (JSON_parse (stripFence text)); reflexivity.
Qed.

(** X9: the two versions of [handleRecord] differ only by the microphone
    request when the browser is supported, the microphone is granted and
    the transcript, if any, is not blank: without the [getUserMedia] call
    the trace of src/App.tsx is the trace of index.tsx, and both end in
    the same store, whether recognition resolves, rejects or stays
    pending. *)
Theorem X9_both_versions_agree (env : Env) (word ipa : jsstring)
    (events : list RecEvent) (gen : GenOutcome) (s : Store) :
  mediaDevices env = true -> SpeechRecognition env = true ->
  (forall t, firstSettled events = Fulfilled t -> blank t = false) ->
  filter (fun a => negb (isMedia a))
    (AppTsx.handleRecord env word ipa GumStream events gen)
  = IndexTsx.handleRecord env word ipa events gen
  /\ run (AppTsx.handleRecord env word ipa GumStream events gen) s
     = run (IndexTsx.handleRecord env word ipa events gen) s.
Proof.
  intros Hm Hs Hb; unfold AppTsx.handleRecord, IndexTsx.handleRecord.
  rewrite Hm, Hs; simpl negb; cbv iota.
  rewrite (proj1 (recognizeSpeech_first events)).
  destruct (firstSettled events) as [|t|reason]; try (split; reflexivity).
  rewrite (Hb t eq_refl); split.
  - change (filter (fun a => negb (isMedia a))
              (record_begin word ++ getUserMedia :: [recognitionStart] ++
               analyzePronunciation env word ipa (toStr t) gen))
      with (record_begin word ++ [recognitionStart] ++
            filter (fun a => negb (isMedia a))
              (analyzePronunciation env word ipa (toStr t) gen)).
    rewrite filter_media_analyze; reflexivity.
  - rewrite !run_app, run_cons, run_app; reflexivity.
Qed.

Lemma prompt_has_transcript (w i t : jsstring) :
  includes (prompt w i t) t = true.
Proof.
  unfold prompt; destruct promptParts as [[[p0 p1] p2] p3].
  apply (includes_mid _ (p0 ++ w ++ p1 ++ i ++ p2) _ p3).
  rewrite <- !app_assoc; reflexivity.
Qed.

(** X10: [handleRecord] of index.tsx has no check of the transcript: with
    recognition supported and an API key, whatever the recognizer resolves
    with is sent to the model, an empty or all-white-space transcript
    included, and an absent one is sent as the text [undefined]. *)
Theorem X10_index_sends_any_transcript (env : Env) (word ipa : jsstring)
    (events : list RecEvent) (gen : GenOutcome) (t : option jsstring) :
  SpeechRecognition env = true -> ai env = true ->
  firstSettled events = Fulfilled t ->
  In (generateContent modelParams (prompt word ipa (toStr t)))
     (IndexTsx.handleRecord env word ipa events gen)
  /\ count isRequest (IndexTsx.handleRecord env word ipa events gen) = 1%nat
  /\ (t = None ->
      includes (prompt word ipa (toStr t)) (js "undefined") = true).
Proof.
  intros Hs Hai Hp; unfold IndexTsx.handleRecord.
  rewrite Hs, (proj1 (recognizeSpeech_first events)), Hp.
  unfold analyzePronunciation; rewrite Hai; simpl negb; cbv iota.
  split; [|split].
  - apply in_or_app; right; apply in_or_app; right.
    apply in_or_app; left; unfold analyze_begin; simpl; auto.
  - rewrite !count_app.
    assert (E : count isRequest (analyze_end gen) = 0%nat).
    { unfold analyze_end; destruct gen as [| |text]; [reflexivity..|].
      destruct (JSON_parse (stripFence text)); reflexivity. }
    rewrite E; reflexivity.
  - intros ->; apply prompt_has_transcript.
Qed.

(** X11: pressing "next item" does not cancel an analysis that is under
    way.  From any store the widget can reach, with an API key: once an
    attempt has sent its request, "next item" resets the widget to idle on
    the next item, and the response that arrives afterwards is stored all
    the same: the widget then shows a result while no word is active and
    the index has moved on. *)
Theorem X11_next_item_does_not_cancel (env : Env) (s : Store)
    (word ipa t text : jsstring) (v : JSON) :
  reachable env s -> ai env = true ->
  JSON_parse (stripFence text) = Some v ->
  let s1 := run (analyze_begin word ipa t) (run (record_begin word) s) in
  let s2 := run (handleNextItem s1) s1 in
  let s3 := run (analyze_end (GenText text)) s2 in
  reachable env s3
  /\ status s1 = analyzing /\ status s2 = idle /\ feedback s2 = JNull
  /\ status s3 = result /\ feedback s3 = v /\ activeWord s3 = None
  /\ currentItemIndex s3
     = ((currentItemIndex s + 1)
          mod Z.of_nat (List.length PRACTICE_ITEMS))%Z.
Proof.
  intros Hr Hai Hv s1 s2 s3.
  assert (R1 : reachable env s1).
  { apply (reach_step env (run (record_begin word) s)).
    - apply (reach_step env s _ Hr), step_block, block_begin.
    - apply step_block, block_analyze; exact Hai. }
  assert (R2 : reachable env s2)
    by (apply (reach_step env s1 _ R1), step_block, block_next).
  assert (R3 : reachable env s3)
    by (apply (reach_step env s2 _ R2), step_block, block_answer).
  destruct (reachable_items env s1 R1) as [Hi Hb].
  pose proof (next_index s1 Hi Hb) as Hn.
  split; [exact R3|].
  subst s3; unfold analyze_end; rewrite Hv.
  repeat split; exact Hn.
Qed.





(** ** The backend handler on a request that has a body *)

(** X13: for a request that carries a body: if the method is not POST the
    handler responds 405 and calls no external service; if the audio field
    of the body is missing or empty it responds 400 and calls no external
    service; otherwise it calls the speech-transcription service once,
    with the audio, and responds 200 with a JSON body whose transcription
    field is the first alternative's transcript of each result joined by
    newlines when the call succeeds and every result has an alternative,
    and 500 when the call throws or a result has none. *)
Theorem X13_handler_on_request_with_body
    (recognize : Backend.RecognizeRequest -> Backend.RecognizeOutcome)
    (req : Backend.Request) :
  (Backend.method req <> js "POST" ->
   Backend.handler recognize req
   = ([], {| Backend.statusCode := 405;
             Backend.payload := Backend.send (js "Method Not Allowed") |}))
  /\ (forall b,
        Backend.method req = js "POST" -> Backend.body req = Some b ->
        Backend.audio b = None \/ Backend.audio b = Some [] ->
        Backend.handler recognize req
        = ([], {| Backend.statusCode := 400;
                  Backend.payload :=
                    Backend.send (js "Bad Request: Missing audio data.") |}))
  /\ (forall b c rest,
        Backend.method req = js "POST" -> Backend.body req = Some b ->
        Backend.audio b = Some (c :: rest) ->
        let request :=
          {| Backend.content := c :: rest;
             Backend.config := Backend.recognitionConfig |} in
        fst (Backend.handler recognize req) = [request]
        /\ (recognize request = Backend.RecognizeThrows ->
            snd (Backend.handler recognize req) = Backend.internalError)
        /\ (forall results,
              recognize request = Backend.RecognizeResponse results ->
              (forall r, In r results -> Backend.alternatives r <> []) ->
              snd (Backend.handler recognize req)
              = {| Backend.statusCode := 200;
                   Backend.payload :=
                     Backend.json (join newline (map firstOf results)) |})
        /\ (forall results,
              recognize request = Backend.RecognizeResponse results ->
              (exists r, In r results /\ Backend.alternatives r = []) ->
              snd (Backend.handler recognize req) = Backend.internalError)).
Proof.
  unfold Backend.handler; split; [|split].
  - intros H; rewrite (str_eqb_neq _ _ H); reflexivity.
  - intros b Hm Hb [Ha|Ha]; rewrite Hm, Hb, Ha; reflexivity.
  - intros b c rest Hm Hb Ha; rewrite Hm, Hb, Ha; simpl.
    set (request := {| Backend.content := c :: rest;
                       Backend.config := Backend.recognitionConfig |}).
    destruct (recognize request) as [|results] eqn:R.
    + repeat split; intros; discriminate.
    + split; [destruct (Backend.firstTranscripts results); reflexivity|].
      split; [discriminate|]; split; intros results' E H;
        injection E as <-.
      * rewrite (firstTranscripts_all _ H); reflexivity.
      * rewrite (firstTranscripts_none _ H); reflexivity.
Qed.

End Paths.

(** ** The further properties at sample inputs *)

Lemma X6_witness :
  (mediaDevices oldBrowser = false \/ SpeechRecognition oldBrowser = false)
  /\ (let acts :=
        @AppTsx.handleRecord referencePlatform oldBrowser (js "sea")
          (js "/si" ++ [720] ++ js "/") GumStream (heard (js "see"))
          (GenText sampleFenced) in
      count isExternal acts = 0%nat
      /\ status (run acts initialStore) = idle
      /\ error (run acts initialStore) = noMicrophoneAccess).
Proof.
  split; [left; reflexivity|].
  destruct (@X6_unsupported_browser_returns_early referencePlatform
              oldBrowser (js "sea") (js "/si" ++ [720] ++ js "/") GumStream
              (heard (js "see")) (GenText sampleFenced) initialStore
              (or_introl eq_refl)) as (H1 & H2 & H3 & _).
  split; [exact H1|]; split; [exact H2 | exact H3].
Defined.

Lemma X7_witness :
  ai keylessEnv = false
  /\ count isRequest
       (@AppTsx.handleRecord referencePlatform keylessEnv (js "sea")
          (js "/si" ++ [720] ++ js "/") GumStream (heard (js "see"))
          (GenText sampleFenced)) = 0%nat
  /\ error
       (run (@AppTsx.handleRecord referencePlatform keylessEnv (js "sea")
               (js "/si" ++ [720] ++ js "/") GumStream (heard (js "see"))
               (GenText sampleFenced)) initialStore) = noApiKey.
Proof.
  split; [reflexivity|].
  destruct (@X7_without_api_key_nothing_is_sent referencePlatform keylessEnv
              (js "sea") (js "/si" ++ [720] ++ js "/") GumStream
              (heard (js "see")) (GenText sampleFenced) initialStore
              eq_refl) as (H1 & _ & _ & H4).
  split; [exact H1|].
  destruct (H4 (Some (js "see")) eq_refl eq_refl eq_refl eq_refl)
    as (_ & _ & He & _).
  exact He.
Defined.

Lemma X8_witness :
  mediaDevices sampleEnv = true /\ SpeechRecognition sampleEnv = true
  /\ ai sampleEnv = true
  /\ firstSettled (heard (js "see")) = Fulfilled (Some (js "see"))
  /\ blank (Some (js "see")) = false
  /\ @JSON_parse referencePlatform (stripFence sampleFenced)
     = Some sampleFeedback
  /\ run (@AppTsx.handleRecord referencePlatform sampleEnv (js "sea")
            (js "/si" ++ [720] ++ js "/") GumStream (heard (js "see"))
            (GenText sampleFenced)) initialStore
     = {| practiceItems := PRACTICE_ITEMS; currentItemIndex := 0;
          status := result; activeWord := Some (js "sea");
          feedback := sampleFeedback; error := [] |}.
Proof.
  repeat (split; [reflexivity|]).
  exact (proj2 (@X8_successful_attempt referencePlatform sampleEnv
                  (js "sea") (js "/si" ++ [720] ++ js "/") (js "see")
                  sampleFenced (heard (js "see")) sampleFeedback
                  initialStore eq_refl eq_refl eq_refl eq_refl eq_refl
                  eq_refl)).
Defined.

Lemma X9_witness :
  mediaDevices sampleEnv = true /\ SpeechRecognition sampleEnv = true
  /\ (forall t,
        firstSettled (heard (js "see")) = Fulfilled t -> blank t = false)
  /\ run (@AppTsx.handleRecord referencePlatform sampleEnv (js "sea")
            (js "/si" ++ [720] ++ js "/") GumStream (heard (js "see"))
            (GenText sampleFenced)) initialStore
     = run (@IndexTsx.handleRecord referencePlatform sampleEnv (js "sea")
              (js "/si" ++ [720] ++ js "/") (heard (js "see"))
              (GenText sampleFenced)) initialStore.
Proof.
  assert (H : forall t,
             firstSettled (heard (js "see")) = Fulfilled t ->
             blank t = false)
    by (intros t E; injection E as <-; reflexivity).
  split; [reflexivity|]; split; [reflexivity|]; split; [exact H|].
  exact (proj2 (@X9_both_versions_agree referencePlatform sampleEnv
                  (js "sea") (js "/si" ++ [720] ++ js "/")
                  (heard (js "see")) (GenText sampleFenced) initialStore
                  eq_refl eq_refl H)).
Defined.

Lemma X10_witness :
  SpeechRecognition sampleEnv = true /\ ai sampleEnv = true
  /\ firstSettled [onresult [[ {| transcript := None |} ]]] = Fulfilled None
  /\ count isRequest
       (@IndexTsx.handleRecord referencePlatform sampleEnv (js "sea")
          (js "/si" ++ [720] ++ js "/")
          [onresult [[ {| transcript := None |} ]]] GenFails) = 1%nat
  /\ includes (prompt (js "sea") (js "/si" ++ [720] ++ js "/") (toStr None))
       (js "undefined") = true.
Proof.
  split; [reflexivity|]; split; [reflexivity|]; split; [reflexivity|].
  destruct (@X10_index_sends_any_transcript referencePlatform sampleEnv
              (js "sea") (js "/si" ++ [720] ++ js "/")
              [onresult [[ {| transcript := None |} ]]] GenFails None
              eq_refl eq_refl eq_refl) as (_ & H2 & H3).
  split; [exact H2 | exact (H3 eq_refl)].
Defined.

Lemma X11_witness :
  @reachable referencePlatform sampleEnv initialStore
  /\ ai sampleEnv = true
  /\ @JSON_parse referencePlatform (stripFence sampleFenced)
     = Some sampleFeedback
  /\ (let s1 :=
        run (analyze_begin (js "sea") (js "/si" ++ [720] ++ js "/")
               (js "see"))
            (run (record_begin (js "sea")) initialStore) in
      let s3 :=
        run (@analyze_end referencePlatform (GenText sampleFenced))
            (run (handleNextItem s1) s1) in
      status s3 = result /\ feedback s3 = sampleFeedback
      /\ activeWord s3 = None /\ currentItemIndex s3 = 1%Z).
Proof.
  split; [apply reach_init|]; split; [reflexivity|]; split; [reflexivity|].
  destruct (@X11_next_item_does_not_cancel referencePlatform sampleEnv
              initialStore (js "sea") (js "/si" ++ [720] ++ js "/")
              (js "see") sampleFenced sampleFeedback
              (@reach_init referencePlatform sampleEnv) eq_refl eq_refl)
    as (_ & _ & _ & _ & H1 & H2 & H3 & H4).
  split; [exact H1|]; split; [exact H2|]; split; [exact H3 | exact H4].
Defined.


Lemma X13_witness :
  Backend.handler sampleRecognize
    (post (Some {| Backend.audio := Some (js "QUJD") |}))
  = ([ {| Backend.content := js "QUJD";
          Backend.config := Backend.recognitionConfig |} ],
     {| Backend.statusCode := 200;
        Backend.payload :=
          Backend.json (js "she sells" ++ newline ++ js "seashells") |})
  /\ Backend.handler sampleRecognize
       (post (Some {| Backend.audio := Some [] |}))
     = ([], {| Backend.statusCode := 400;
               Backend.payload :=
                 Backend.send (js "Bad Request: Missing audio data.") |}).
Proof.
  destruct (X13_handler_on_request_with_body sampleRecognize
              (post (Some {| Backend.audio := Some (js "QUJD") |})))
    as (_ & _ & Hcall).
  destruct (Hcall {| Backend.audio := Some (js "QUJD") |} 81 (js "UJD")
              eq_refl eq_refl eq_refl) as (Hfst & _ & Hok & _).
  destruct (X13_handler_on_request_with_body sampleRecognize
              (post (Some {| Backend.audio := Some [] |})))
    as (_ & Hempty & _).
  split.
  - rewrite (surjective_pairing (Backend.handler _ _)), Hfst.
    rewrite (Hok _ eq_refl); [reflexivity|].
    intros r [<-|[<-|[]]]; discriminate.
  - apply (Hempty {| Backend.audio := Some [] |}); auto.
Defined.
